(** * gyee p2p: scheduler task-node pool and chain-shell deduplication

    A shallow embedding of [p2p/scheduler/schimpl.go] and
    [p2p/shell/chainshell.go].  Go code that runs under a lock is modelled
    as one atomic transition of an explicit state; a goroutine that would
    park on a channel, or that would hit a run-time panic, is an outcome of
    its own ([Blocks], [Panics]) so that "returns" is a statement that can
    fail. *)

From Stdlib Require Import ZArith Lia.
From stdpp Require Import base option list gmap strings.

Local Open Scope Z_scope.

(** ** Outcomes and the state monad used by both packages *)

Inductive exec (A : Type) : Type :=
| Returns (a : A)
| Blocks
| Panics.
Arguments Returns {A} a.
Arguments Blocks {A}.
Arguments Panics {A}.

Definition M (S A : Type) : Type := S -> exec (A * S).

Definition ret {S A} (a : A) : M S A := fun s => Returns (a, s).

Definition bind {S A B} (m : M S A) (k : A -> M S B) : M S B :=
  fun s =>
    match m s with
    | Returns (a, s') => k a s'
    | Blocks => Blocks
    | Panics => Panics
    end.

Definition get {S} : M S S := fun s => Returns (s, s).
Definition put {S} (s : S) : M S unit := fun _ => Returns (tt, s).
Definition modify {S} (f : S -> S) : M S unit := fun s => Returns (tt, f s).
Definition block {S A} : M S A := fun _ => Blocks.
Definition panic {S A} : M S A := fun _ => Panics.

Global Instance M_ret {S} : MRet (M S) := fun A => @ret S A.
Global Instance M_bind {S} : MBind (M S) := fun A B k m => bind m k.

(** Monadic left-to-right loop over a slice or over the keys a [range]
    yields. *)
Fixpoint forM_ {S A} (l : list A) (body : A -> M S unit) : M S unit :=
  match l with
  | [] => ret tt
  | x :: l' => body x;; forM_ l' body
  end.

(** Total and partial postconditions of a computation started in [s]. *)
Definition wp {S A} (m : M S A) (s : S) (Q : A -> S -> Prop) : Prop :=
  match m s with
  | Returns (a, s') => Q a s'
  | Blocks => False
  | Panics => False
  end.

Definition post {S A} (m : M S A) (s : S) (Q : A -> S -> Prop) : Prop :=
  match m s with
  | Returns (a, s') => Q a s'
  | Blocks => True
  | Panics => True
  end.

(** Go's fixed-width integers, with the wrap-around written out. *)
Definition int64 (z : Z) : Z := (z + 2 ^ 63) mod 2 ^ 64 - 2 ^ 63.
Definition uint32 (z : Z) : Z := z mod 2 ^ 32.

(** Scheduler error numbers used by the two files. *)
Inductive SchErrno : Set :=
| SchEnoNone | SchEnoParameter | SchEnoResource | SchEnoNotFound
| SchEnoInternal | SchEnoMismatched | SchEnoDuplicated | SchEnoSuspended
| SchEnoKilled | SchEnoPowerOff | SchEnoUserTask | SchEnoUnknown.

Global Instance SchErrno_eq_dec : EqDecision SchErrno.
Proof. solve_decision. Defined.

Abbreviation byte := Byte.byte.

Global Instance byte_eq_dec : EqDecision byte := Byte.byte_eq_dec.
Global Instance byte_countable : Countable byte.
Proof. exact (inj_countable Byte.to_N Byte.of_N Byte.of_to_N). Defined.

(** * The chain shell ([p2p/shell/chainshell.go]) *)

Module Shell.

(** ** Data model *)

(** [shellPeerID]: sub network, direction, node identity.  [snid] and
    [nodeId] are fixed-size byte arrays in the source. *)
Record shellPeerID : Type := ShellPeerID {
  snid : list byte;
  dir : Z;
  nodeId : list byte;
}.

Global Instance shellPeerID_eq_dec : EqDecision shellPeerID.
Proof. solve_decision. Defined.

Global Instance shellPeerID_countable : Countable shellPeerID.
Proof.
  refine (inj_countable' (fun p => (snid p, dir p, nodeId p))
                         (fun t => ShellPeerID t.1.1 t.1.2 t.2) _).
  by intros [].
Defined.

(** [peer.P2pPackage], the frame written to a peer's tx channel. *)
Record P2pPackage : Type := MkPackage {
  Pid : Z;
  Mid : Z;
  Key : list byte;
  PayloadLength : Z;
  Payload : list byte;
}.

Global Instance P2pPackage_eq_dec : EqDecision P2pPackage.
Proof. solve_decision. Defined.

(** The fields of [peer.P2pPackageRx] the shell reads. *)
Record P2pPackageRx : Type := MkPackageRx {
  ProtoId : Z;
  MsgId : Z;
  rxKey : list byte;
  rxPayloadLength : Z;
  rxPayload : list byte;
  PeerInfo : shellPeerID;   (* PeerInfo.Snid, PeerInfo.Dir, PeerInfo.NodeId *)
}.

(** [peer.CheckKey], [peer.ReportKey] and the decoded [peer.ExtMessage]. *)
Record CheckKey : Type := MkCheckKey { chkkKey : list byte }.
Record ReportKey : Type := MkReportKey { rptkKey : list byte; Status : Z }.
Record ExtMessage : Type := MkExtMessage {
  extMid : Z;
  Chkk : option CheckKey;
  Rptk : option ReportKey;
}.

(** [sch.MsgShellBroadcastReq]. [Exclude] is a pointer to a node identity. *)
Record MsgShellBroadcastReq : Type := MkBroadcastReq {
  MsgType : Z;
  reqKey : list byte;
  Data : list byte;
  Exclude : option (list byte);
}.

(** [sch.MsgPeCloseReq], as the shell fills it. *)
Record MsgPeCloseReq : Type := MkPeCloseReq {
  pcrSnid : list byte;
  pcrNode : list byte;
  pcrDir : Z;
}.

(** A buffered Go channel: its queued elements and its capacity. *)
Record chan (A : Type) : Type := MkChan {
  buf : list A;
  capacity : nat;
}.
Arguments MkChan {A} buf capacity.
Arguments buf {A} c.
Arguments capacity {A} c.

Inductive peerStatus : Set := pisActive | pisClosing.

Global Instance peerStatus_eq_dec : EqDecision peerStatus.
Proof. solve_decision. Defined.

(** [shellPeerInst].  [pi] is the opaque handle of the peer instance; the
    rx channel and the handshake record are read only by the rx goroutine
    and by log lines. *)
Record shellPeerInst : Type := MkPeerInst {
  spid : shellPeerID;
  txChan : chan P2pPackage;
  pi : nat;
  status : peerStatus;
  txDiscrd : Z;
}.

(** [config.DsKey] is a fixed-size byte array; [deDupKey] pairs it with a
    peer. *)
Abbreviation DsKey := (list byte).

Record deDupKey : Type := MkDeDupKey {
  key : DsKey;
  peer : shellPeerID;
}.

Global Instance deDupKey_eq_dec : EqDecision deDupKey.
Proof. solve_decision. Defined.

Global Instance deDupKey_countable : Countable deDupKey.
Proof.
  refine (inj_countable' (fun d => (key d, peer d))
                         (fun t => MkDeDupKey t.1 t.2) _).
  by intros [].
Defined.

(** What a timer carries as its data ([interface{}] holding a [*DsKey] or
    a [*deDupKey]) and which callback it was created with. *)
Inductive tmData : Type :=
| TdNone
| TdKey (k : DsKey)
| TdDdk (d : deDupKey).

Inductive tmCallback : Set := CbDeDupTimer | CbDeDupKey.

(** The value of Go's [error] interface as these functions produce it. *)
Inductive error : Type :=
| ErrSch (eno : SchErrno)
| ErrNew (msg : string).

Record shMgrBcrStat : Type := MkBcrStat {
  bcrCount : Z; bcrEvCount : Z; bcrTxCount : Z; bcrBhCount : Z;
  bcrBkCount : Z; bcrUnknown : Z; bcrSkmFailed : Z; bcrSkmOk : Z;
  bcrExclude : Z; bcrUnactive : Z; bcrSendOk : Z; bcrSendFailed : Z;
  bcrChkkOk : Z; bcrChkkFailed : Z;
}.

(** ** Collaborators that are not part of the two files *)

(** [dht.TimerManager]: only its interface is used here. *)
Class TimerService : Type := {
  TimerManager : Type;
  Timer : Type;
  TmErrno : Type;
  TmErrno_eq_dec :: EqDecision TmErrno;
  TmEnoNone : TmErrno;
  GetTimer : Z -> tmCallback -> TimerManager -> (Timer * TmErrno) * TimerManager;
  SetTimerData : Timer -> tmData -> TimerManager -> TimerManager;
  StartTimer : Timer -> TimerManager -> TmErrno * TimerManager;
  KillTimer : Timer -> TimerManager -> TmErrno * TimerManager;
}.

(** Constants and the wire codec of packages [config], [scheduler] and
    [peer]. The encoders return [None] where the Go method reports an
    error. *)
Class PeerCodec : Type := {
  DsKeyLength : nat;
  MSBR_MT_EV : Z;
  MSBR_MT_TX : Z;
  MSBR_MT_BLKH : Z;
  MSBR_MT_BLK : Z;
  PID_EXT : Z;
  MID_CHKK : Z;
  MID_RPTK : Z;
  pkgCheckKey : nat -> CheckKey -> option P2pPackage;
  pkgReportKey : nat -> ReportKey -> option P2pPackage;
  GetExtMessage : P2pPackage -> option ExtMessage;
}.

(** Modelled from the spec: the wire values of the key status carried by
    an RPTK frame, [peer.KS_NOTEXIST] and [peer.KS_EXIST] (section 6:
    EXIST=1, NOTEXIST=0). *)
Definition KS_NOTEXIST : Z := 0.
Definition KS_EXIST : Z := 1.

Definition SKM_OK : Z := 0.
Definition SKM_DUPLICATED : Z := 1.
Definition SKM_FAILED : Z := 2.

(** [time.Second * 8] and [time.Second * 55], in nanoseconds. *)
Definition chkkTime : Z := 8 * 1000000000.
Definition keyTime : Z := 55 * 1000000000.

Section Manager.
Context `{TS : TimerService} `{PC : PeerCodec}.

Record deDupVal : Type := MkDeDupVal {
  bcReq : MsgShellBroadcastReq;
  timer : Timer;
}.

(** The fields of [ShellManager] the handlers below read or write.  The
    objects the map [peerActived] points to live in the map itself: a
    [*shellPeerInst] is the key it is stored under.  [toPeMgr] collects
    the messages handed to the scheduler for the peer manager. *)
Record ShellManager : Type := MkShellManager {
  peerActived : gmap shellPeerID shellPeerInst;
  deDup : bool;
  tmDedup : TimerManager;
  deDupKeyMap : gmap DsKey Timer;
  deDupMap : gmap deDupKey deDupVal;
  bcrStat : shMgrBcrStat;
  toPeMgr : list MsgPeCloseReq;
}.

Definition set_peerActived (f : gmap shellPeerID shellPeerInst -> gmap shellPeerID shellPeerInst)
    (s : ShellManager) : ShellManager :=
  MkShellManager (f (peerActived s)) (deDup s) (tmDedup s) (deDupKeyMap s)
                 (deDupMap s) (bcrStat s) (toPeMgr s).

Definition set_tmDedup (tm : TimerManager) (s : ShellManager) : ShellManager :=
  MkShellManager (peerActived s) (deDup s) tm (deDupKeyMap s)
                 (deDupMap s) (bcrStat s) (toPeMgr s).

Definition set_deDupKeyMap (f : gmap DsKey Timer -> gmap DsKey Timer)
    (s : ShellManager) : ShellManager :=
  MkShellManager (peerActived s) (deDup s) (tmDedup s) (f (deDupKeyMap s))
                 (deDupMap s) (bcrStat s) (toPeMgr s).

Definition set_deDupMap (f : gmap deDupKey deDupVal -> gmap deDupKey deDupVal)
    (s : ShellManager) : ShellManager :=
  MkShellManager (peerActived s) (deDup s) (tmDedup s) (deDupKeyMap s)
                 (f (deDupMap s)) (bcrStat s) (toPeMgr s).

Definition set_bcrStat (st : shMgrBcrStat) (s : ShellManager) : ShellManager :=
  MkShellManager (peerActived s) (deDup s) (tmDedup s) (deDupKeyMap s)
                 (deDupMap s) st (toPeMgr s).

Definition set_toPeMgr (l : list MsgPeCloseReq) (s : ShellManager) : ShellManager :=
  MkShellManager (peerActived s) (deDup s) (tmDedup s) (deDupKeyMap s)
                 (deDupMap s) (bcrStat s) l.

Definition set_txChan (c : chan P2pPackage) (pe : shellPeerInst) : shellPeerInst :=
  MkPeerInst (spid pe) c (pi pe) (status pe) (txDiscrd pe).

Definition set_status (st : peerStatus) (pe : shellPeerInst) : shellPeerInst :=
  MkPeerInst (spid pe) (txChan pe) (pi pe) st (txDiscrd pe).

Definition set_txDiscrd (n : Z) (pe : shellPeerInst) : shellPeerInst :=
  MkPeerInst (spid pe) (txChan pe) (pi pe) (status pe) n.

Abbreviation SM := (M ShellManager).

(** [key := config.DsKey{}; copy(key[0:], src)]: the first [DsKeyLength]
    bytes of [src], zero padded. *)
Definition mkDsKey (src : list byte) : DsKey :=
  take DsKeyLength src ++ replicate (DsKeyLength - length src)%nat Byte.x00.

(** *** Pointers into the peer table and channel operations *)

Definition deref (spi : shellPeerID) : SM shellPeerInst :=
  fun s => match peerActived s !! spi with
           | Some pe => Returns (pe, s)
           | None => Panics
           end.

Definition store (spi : shellPeerID) (pe : shellPeerInst) : SM unit :=
  modify (set_peerActived (insert spi pe)).

(** [len(c) >= cap(c)] *)
Definition chanFull {A} (c : chan A) : bool :=
  bool_decide (capacity c <= length (buf c))%nat.

(** [spi.txChan <- pkg]: parks the goroutine when the buffer is full. *)
Definition txSend (spi : shellPeerID) (pkg : P2pPackage) : SM unit :=
  pe ← deref spi;
  if chanFull (txChan pe) then block
  else store spi (set_txChan (MkChan (buf (txChan pe) ++ [pkg]) (capacity (txChan pe))) pe).

(** *** Timer manager calls, threaded through [tmDedup] *)

Definition tmGetTimer (dur : Z) (cb : tmCallback) : SM (Timer * TmErrno) :=
  fun s => let '(r, tm') := GetTimer dur cb (tmDedup s) in Returns (r, set_tmDedup tm' s).

Definition tmSetTimerData (t : Timer) (d : tmData) : SM unit :=
  fun s => Returns (tt, set_tmDedup (SetTimerData t d (tmDedup s)) s).

Definition tmStartTimer (t : Timer) : SM TmErrno :=
  fun s => let '(e, tm') := StartTimer t (tmDedup s) in Returns (e, set_tmDedup tm' s).

Definition tmKillTimer (t : Timer) : SM TmErrno :=
  fun s => let '(e, tm') := KillTimer t (tmDedup s) in Returns (e, set_tmDedup tm' s).

(** *** The known-key map *)

Definition checkKeyMap (k : DsKey) : SM Z :=
  s ← get;
  if bool_decide (is_Some (deDupKeyMap s !! k)) then mret SKM_DUPLICATED
  else mret SKM_OK.

(** In the source the result of [StartTimer] is discarded: the condition
    of that [if] statement tests [err], which still holds the result of
    [GetTimer]. *)
Definition setKeyMap (k : DsKey) : SM Z :=
  s ← get;
  if bool_decide (is_Some (deDupKeyMap s !! k)) then mret SKM_DUPLICATED
  else
    '(tm, err) ← tmGetTimer keyTime CbDeDupKey;
    if bool_decide (err ≠ TmEnoNone) then mret SKM_FAILED
    else
      tmSetTimerData tm (TdKey k);;
      _ ← tmStartTimer tm;
      if bool_decide (err ≠ TmEnoNone) then mret SKM_FAILED
      else
        modify (set_deDupKeyMap (insert k tm));;
        mret SKM_OK.

(** Callback of the key timer; [data] is what [SetTimerData] stored. *)
Definition deDupKeyCb (data : tmData) : SM (option error) :=
  match data with
  | TdKey k => modify (set_deDupKeyMap (delete k));; mret None
  | _ => mret (Some (ErrNew "deDupKeyCb: invalid timer data"))
  end.

(** Callback of the CHKK timer. *)
Definition deDupTimerCb (data : tmData) : SM (option error) :=
  match data with
  | TdDdk ddk =>
      s ← get;
      if bool_decide (is_Some (deDupMap s !! ddk)) then
        modify (set_deDupMap (delete ddk));; mret None
      else mret (Some (ErrNew "deDupTimerCb: not found"))
  | _ => mret (Some (ErrNew "deDupTimerCb: invalid data"))
  end.

(** *** Sending to one peer *)

Definition bcr2Package (req : MsgShellBroadcastReq) : P2pPackage :=
  MkPackage (uint32 PID_EXT) (uint32 (MsgType req)) (reqKey req)
            (uint32 (Z.of_nat (length (Data req)))) (Data req).

(** [spi.txDiscrd += 1], the statement every send function runs when it
    finds the tx queue full. *)
Definition discard (spi : shellPeerID) (pe : shellPeerInst) : SM unit :=
  store spi (set_txDiscrd (int64 (txDiscrd pe + 1)) pe).

Definition send2Peer (spi : shellPeerID) (req : MsgShellBroadcastReq) : SM SchErrno :=
  pe ← deref spi;
  if chanFull (txChan pe) then
    discard spi pe;; mret SchEnoResource
  else
    txSend spi (bcr2Package req);; mret SchEnoNone.

Definition checkKey2Peer (spi : shellPeerID) (ddk : deDupKey) : SM (option error) :=
  pe ← deref spi;
  if chanFull (txChan pe) then
    discard spi pe;; mret (Some (ErrSch SchEnoResource))
  else
    match pkgCheckKey (pi pe) (MkCheckKey (key ddk)) with
    | None => mret (Some (ErrNew "checkKey2Peer: ReportKey failed"))
    | Some upkg => txSend spi upkg;; mret None
    end.

Definition reportKey2Peer (spi : shellPeerID) (k : DsKey) (st : Z) : SM (option error) :=
  pe ← deref spi;
  if chanFull (txChan pe) then
    discard spi pe;; mret (Some (ErrSch SchEnoResource))
  else
    match pkgReportKey (pi pe) (MkReportKey k st) with
    | None => mret (Some (ErrNew "reportKey2Peer: ReportKey failed"))
    | Some upkg => txSend spi upkg;; mret None
    end.

(** *** CHKK negotiation for one peer *)

(** The parameter [pe] of the source is not read: the function works on
    [pai], the instance it looks up under [pid]. *)
Definition checkKey (pid : shellPeerID) (req : MsgShellBroadcastReq) : SM SchErrno :=
  let ddk := MkDeDupKey (mkDsKey (reqKey req)) pid in
  s ← get;
  match peerActived s !! pid with
  | None => mret SchEnoNotFound
  | Some _ =>
      if bool_decide (is_Some (deDupMap s !! ddk)) then mret SchEnoDuplicated
      else
        err ← checkKey2Peer pid ddk;
        match err with
        | Some _ => mret SchEnoUserTask
        | None =>
            '(tm, e) ← tmGetTimer chkkTime CbDeDupTimer;
            if bool_decide (e ≠ TmEnoNone) then mret SchEnoUserTask
            else
              tmSetTimerData tm (TdDdk ddk);;
              modify (set_deDupMap (insert ddk (MkDeDupVal req tm)));;
              e' ← tmStartTimer tm;
              if bool_decide (e' ≠ TmEnoNone) then mret SchEnoUserTask
              else mret SchEnoNone
        end
  end.

(** *** The broadcast dispatcher *)

(** The local counters of [broadcastReq]. *)
Record bcrLocals : Type := MkLocals {
  skmFailed : Z; skmOk : Z; exclude : Z; unactive : Z;
  sendOk : Z; sendFailed : Z; chkkOk : Z; chkkFailed : Z;
}.

Definition noLocals : bcrLocals := MkLocals 0 0 0 0 0 0 0 0.

Definition incr (n : Z) : Z := int64 (n + 1).

(** The deferred closure [doStat]; [bcrSkmOk] is advanced by [skmFailed],
    as in the source. *)
Definition doStat (mt : Z) (l : bcrLocals) : SM unit :=
  modify (fun s =>
    let st := bcrStat s in
    let ev := bool_decide (mt = MSBR_MT_EV) in
    let tx := bool_decide (mt = MSBR_MT_TX) in
    let bh := bool_decide (mt = MSBR_MT_BLKH) in
    let bk := bool_decide (mt = MSBR_MT_BLK) in
    set_bcrStat
      (MkBcrStat
         (incr (bcrCount st))
         (if ev then incr (bcrEvCount st) else bcrEvCount st)
         (if negb ev && tx then incr (bcrTxCount st) else bcrTxCount st)
         (if negb ev && negb tx && bh then incr (bcrBhCount st) else bcrBhCount st)
         (if negb ev && negb tx && negb bh && bk then incr (bcrBkCount st) else bcrBkCount st)
         (if negb ev && negb tx && negb bh && negb bk then incr (bcrUnknown st) else bcrUnknown st)
         (int64 (bcrSkmFailed st + skmFailed l))
         (int64 (bcrSkmOk st + skmFailed l))
         (int64 (bcrExclude st + exclude l))
         (int64 (bcrUnactive st + unactive l))
         (int64 (bcrSendOk st + sendOk l))
         (int64 (bcrSendFailed st + sendFailed l))
         (int64 (bcrChkkOk st + chkkOk l))
         (int64 (bcrChkkFailed st + chkkFailed l)))
      s).

(** [req.Exclude == nil || bytes.Compare(id.nodeId[0:], req.Exclude[0:]) != 0] *)
Definition notExcluded (id : shellPeerID) (req : MsgShellBroadcastReq) : bool :=
  match Exclude req with
  | None => true
  | Some ex => bool_decide (nodeId id ≠ ex)
  end.

(** One iteration of [for id, pe := range shMgr.peerActived]. An [id]
    that is not a key of the map is not yielded by [range]. *)
Definition bcrPeer (req : MsgShellBroadcastReq) (id : shellPeerID)
    (l : bcrLocals) : SM bcrLocals :=
  s ← get;
  match peerActived s !! id with
  | None => mret l
  | Some pe =>
      if bool_decide (status pe ≠ pisActive) then
        mret (MkLocals (skmFailed l) (skmOk l) (exclude l) (incr (unactive l))
                       (sendOk l) (sendFailed l) (chkkOk l) (chkkFailed l))
      else if notExcluded id req then
        if negb (deDup s) then
          eno ← send2Peer id req;
          if bool_decide (eno = SchEnoNone) then
            mret (MkLocals (skmFailed l) (skmOk l) (exclude l) (unactive l)
                           (incr (sendOk l)) (sendFailed l) (chkkOk l) (chkkFailed l))
          else
            mret (MkLocals (skmFailed l) (skmOk l) (exclude l) (unactive l)
                           (sendOk l) (incr (sendFailed l)) (chkkOk l) (chkkFailed l))
        else
          eno ← checkKey id req;
          if bool_decide (eno = SchEnoNone) then
            mret (MkLocals (skmFailed l) (skmOk l) (exclude l) (unactive l)
                           (sendOk l) (sendFailed l) (incr (chkkOk l)) (chkkFailed l))
          else
            mret (MkLocals (skmFailed l) (skmOk l) (exclude l) (unactive l)
                           (sendOk l) (sendFailed l) (chkkOk l) (incr (chkkFailed l)))
      else
        mret (MkLocals (skmFailed l) (skmOk l) (incr (exclude l)) (unactive l)
                       (sendOk l) (sendFailed l) (chkkOk l) (chkkFailed l))
  end.

Fixpoint bcrRange (req : MsgShellBroadcastReq) (ids : list shellPeerID)
    (l : bcrLocals) : SM bcrLocals :=
  match ids with
  | [] => mret l
  | id :: ids' => l' ← bcrPeer req id l; bcrRange req ids' l'
  end.

Definition isBroadcastType (mt : Z) : bool :=
  bool_decide (mt = MSBR_MT_EV) || bool_decide (mt = MSBR_MT_TX)
  || bool_decide (mt = MSBR_MT_BLKH) || bool_decide (mt = MSBR_MT_BLK).

(** [broadcastReq]. [ids] is the order in which [range] yields the keys
    of [peerActived]; Go leaves that order unspecified. *)
Definition broadcastReq (ids : list shellPeerID) (req : MsgShellBroadcastReq) : SM SchErrno :=
  let mt := MsgType req in
  if isBroadcastType mt then
    let key := mkDsKey (reqKey req) in
    s ← get;
    if deDup s then
      skm ← setKeyMap key;
      if bool_decide (skm = SKM_DUPLICATED) || bool_decide (skm = SKM_FAILED) then
        doStat mt (MkLocals 1 0 0 0 0 0 0 0);; mret SchEnoUserTask
      else
        l ← bcrRange req ids (MkLocals 0 1 0 0 0 0 0 0);
        doStat mt l;; mret SchEnoNone
    else
      l ← bcrRange req ids noLocals;
      doStat mt l;; mret SchEnoNone
  else
    doStat mt noLocals;; mret SchEnoParameter.

(** *** Frames received from a peer *)

Definition rx2Package (rxPkg : P2pPackageRx) : P2pPackage :=
  MkPackage (uint32 (ProtoId rxPkg)) (uint32 (MsgId rxPkg)) (rxKey rxPkg)
            (uint32 (rxPayloadLength rxPkg)) (rxPayload rxPkg).

Definition checkKeyFromPeer (rxPkg : P2pPackageRx) : SM SchErrno :=
  match GetExtMessage (rx2Package rxPkg) with
  | None => mret SchEnoUserTask
  | Some msg =>
      if bool_decide (extMid msg ≠ uint32 MID_CHKK) then mret SchEnoUserTask
      else
        let k := mkDsKey (rxKey rxPkg) in
        let spid := PeerInfo rxPkg in
        s ← get;
        match peerActived s !! spid with
        | None => mret SchEnoNotFound
        | Some pai =>
            if bool_decide (status pai ≠ pisActive) then mret SchEnoNotFound
            else
              let st := if bool_decide (is_Some (deDupKeyMap s !! k))
                        then KS_EXIST else KS_NOTEXIST in
              err ← reportKey2Peer spid k st;
              match err with
              | Some _ => mret SchEnoUserTask
              | None => mret SchEnoNone
              end
        end
  end.

Definition reportKeyFromPeer (rxPkg : P2pPackageRx) : SM SchErrno :=
  match GetExtMessage (rx2Package rxPkg) with
  | None => mret SchEnoUserTask
  | Some msg =>
      if bool_decide (extMid msg ≠ uint32 MID_RPTK) then mret SchEnoUserTask
      else
        let spid := PeerInfo rxPkg in
        s ← get;
        match peerActived s !! spid with
        | None => mret SchEnoNotFound
        | Some pai =>
            if bool_decide (status pai ≠ pisActive) then mret SchEnoNotFound
            else
              let ddk := MkDeDupKey (mkDsKey (rxKey rxPkg)) spid in
              match deDupMap s !! ddk with
              | None => mret SchEnoNotFound
              | Some ddv =>
                  tmKillTimer (timer ddv);;
                  modify (set_deDupMap (delete ddk));;
                  match Rptk msg with
                  | None => panic
                  | Some r =>
                      if bool_decide (Status r = KS_NOTEXIST)
                      then send2Peer spid (bcReq ddv)
                      else mret SchEnoNone
                  end
              end
        end
  end.

Definition getChainDataFromPeer (rxPkg : P2pPackageRx) : SM SchErrno :=
  s ← get;
  match peerActived s !! PeerInfo rxPkg with
  | None => mret SchEnoNotFound
  | Some pai =>
      if bool_decide (status pai ≠ pisActive) then mret SchEnoNotFound
      else mret SchEnoNone
  end.

(** *** The peer table *)

(** [peerActiveInd], up to the start of the rx goroutine. *)
Definition peerActiveInd (peerId : shellPeerID) (tx : chan P2pPackage) (inst : nat)
    : SM SchErrno :=
  s ← get;
  if bool_decide (is_Some (peerActived s !! peerId)) then mret SchEnoUserTask
  else
    store peerId (MkPeerInst peerId tx inst pisActive 0);;
    mret SchEnoNone.

Definition peerCloseCfm (peerId : shellPeerID) : SM SchErrno :=
  s ← get;
  match peerActived s !! peerId with
  | None => mret SchEnoNotFound
  | Some peerInst =>
      if bool_decide (status peerInst ≠ pisClosing) then mret SchEnoMismatched
      else modify (set_peerActived (delete peerId));; mret SchEnoNone
  end.

Definition peerAskToCloseInd (peerId : shellPeerID) : SM SchErrno :=
  s ← get;
  match peerActived s !! peerId with
  | None => mret SchEnoNotFound
  | Some peerInst =>
      if bool_decide (status peerInst ≠ pisActive) then mret SchEnoMismatched
      else
        modify (fun s => set_toPeMgr
                  (toPeMgr s ++ [MkPeCloseReq (snid peerId) (nodeId peerId) (dir peerId)]) s);;
        store peerId (set_status pisClosing peerInst);;
        mret SchEnoNone
  end.

(** *** Everything that can happen to a shell manager

    One constructor per handler above, plus [EvTxDrain]: the peer
    instance taking the frame at the head of its tx channel. *)
Inductive event : Type :=
| EvPeerActiveInd (id : shellPeerID) (tx : chan P2pPackage) (inst : nat)
| EvPeerCloseCfm (id : shellPeerID)
| EvPeerAskToCloseInd (id : shellPeerID)
| EvBroadcastReq (ids : list shellPeerID) (req : MsgShellBroadcastReq)
| EvRxCHKK (rxPkg : P2pPackageRx)
| EvRxRPTK (rxPkg : P2pPackageRx)
| EvKeyTimer (data : tmData)
| EvChkkTimer (data : tmData)
| EvTxDrain (id : shellPeerID).

Definition txDrain (id : shellPeerID) : SM unit :=
  s ← get;
  match peerActived s !! id with
  | None => mret tt
  | Some pe =>
      store id (set_txChan (MkChan (tail (buf (txChan pe))) (capacity (txChan pe))) pe)
  end.

Definition handle (e : event) : SM unit :=
  match e with
  | EvPeerActiveInd id tx inst => peerActiveInd id tx inst;; mret tt
  | EvPeerCloseCfm id => peerCloseCfm id;; mret tt
  | EvPeerAskToCloseInd id => peerAskToCloseInd id;; mret tt
  | EvBroadcastReq ids req => broadcastReq ids req;; mret tt
  | EvRxCHKK rxPkg => checkKeyFromPeer rxPkg;; mret tt
  | EvRxRPTK rxPkg => reportKeyFromPeer rxPkg;; mret tt
  | EvKeyTimer data => deDupKeyCb data;; mret tt
  | EvChkkTimer data => deDupTimerCb data;; mret tt
  | EvTxDrain id => txDrain id
  end.

Definition run (evs : list event) : SM unit := forM_ evs handle.

(** *** Relations between two states of the manager *)

(** [s'] differs from [s] in the peer table at most at [id]. *)
Definition frame (id : shellPeerID) (s s' : ShellManager) : Prop :=
  forall q, q ≠ id -> peerActived s' !! q = peerActived s !! q.

(** Peers that are not Active in [s] are the same in [s']. *)
Definition inactiveKept (s s' : ShellManager) : Prop :=
  forall q pe, peerActived s !! q = Some pe -> status pe ≠ pisActive ->
               peerActived s' !! q = Some pe.

(** Keys known in [s] are known in [s']. *)
Definition keysKept (s s' : ShellManager) : Prop :=
  forall k, is_Some (deDupKeyMap s !! k) -> is_Some (deDupKeyMap s' !! k).

(** The state [reportKeyFromPeer] reaches once it has found the pending
    entry: its timer killed and the entry removed. *)
Definition entryCleared (ddk : deDupKey) (ddv : deDupVal) (s : ShellManager) : ShellManager :=
  set_deDupMap (delete ddk) (set_tmDedup (KillTimer (timer ddv) (tmDedup s)).2 s).

End Manager.

End Shell.

(** * The scheduler's task-node pool ([p2p/scheduler/schimpl.go]) *)

Module Sched.

(** Constants and types declared in other files of the package, and
    [strings.TrimSpace]. *)
Class SchedConsts : Type := {
  schTaskNodePoolSize : Z;
  schTimerNodePoolSize : Z;
  schMaxTaskTimer : Z;
  SchCreatedGo : Z;
  SchCreatedSuspend : Z;
  SchDefaultDogCycle : Z;
  SchDefaultDogDieThresold : Z;
  TrimSpace : string -> string;
}.

(** A buffered Go channel: its queued elements and its capacity. *)
Record chan (A : Type) : Type := MkChan {
  buf : list A;
  capacity : nat;
}.
Arguments MkChan {A} buf capacity.
Arguments buf {A} c.
Arguments capacity {A} c.

Record schWatchDog : Type := MkDog {
  HaveDog : bool;
  Inited : bool;
  Cycle : Z;
  BiteCounter : Z;
  DieThreshold : Z;
}.

(** [schTask].  Pointers to task nodes and to timer nodes are indices into
    the two pools, [None] is [nil]; entry points, callbacks and user data
    are opaque handles. *)
Record schTask : Type := MkTask {
  name : string;
  utep : option nat;
  que : option (chan Z);            (* mailbox.que, holding message ids *)
  mbSize : Z;                       (* mailbox.size *)
  done : option (chan SchErrno);
  stopped : option (chan bool);
  dog : schWatchDog;
  dieCb : option nat;
  userData : option nat;
  goStatus : Z;
  tmTab : list (option nat);
  tmIdxTab : gmap nat Z;
}.

Record schTaskNode : Type := MkNode {
  task : schTask;
  last : option nat;
  next : option nat;
}.

(** The part of a timer node [schKillTimer] and [schKillTaskTimers]
    touch: the [stop] channel of its control block. *)
Record schTmcbNode : Type := MkTmcbNode {
  stop : option (chan bool);
}.

Record schTaskDescription : Type := MkDesc {
  Name : string;
  MbSize : Z;
  Ep : option nat;
  Wd : option schWatchDog;
  Flag : Z;
  DieCb : option nat;
  UserDa : option nat;
}.

(** The fields of [scheduler] behind the task-node pool.  [spawned] lists
    the nodes for which [go sdl.schCommonTask(ptn)] was executed. *)
Record scheduler : Type := MkScheduler {
  schTaskNodePool : list schTaskNode;
  tkFree : option nat;
  freeSize : Z;
  tkBusy : option nat;
  busySize : Z;
  tkMap : gmap string nat;
  schTimerNodePool : list schTmcbNode;
  tmMap : gmap nat nat;
  spawned : list nat;
}.

Definition set_pool (f : list schTaskNode -> list schTaskNode) (s : scheduler) : scheduler :=
  MkScheduler (f (schTaskNodePool s)) (tkFree s) (freeSize s) (tkBusy s) (busySize s)
              (tkMap s) (schTimerNodePool s) (tmMap s) (spawned s).

Definition set_tkFree (p : option nat) (s : scheduler) : scheduler :=
  MkScheduler (schTaskNodePool s) p (freeSize s) (tkBusy s) (busySize s)
              (tkMap s) (schTimerNodePool s) (tmMap s) (spawned s).

Definition set_freeSize (n : Z) (s : scheduler) : scheduler :=
  MkScheduler (schTaskNodePool s) (tkFree s) n (tkBusy s) (busySize s)
              (tkMap s) (schTimerNodePool s) (tmMap s) (spawned s).

Definition set_tkBusy (p : option nat) (s : scheduler) : scheduler :=
  MkScheduler (schTaskNodePool s) (tkFree s) (freeSize s) p (busySize s)
              (tkMap s) (schTimerNodePool s) (tmMap s) (spawned s).

Definition set_busySize (n : Z) (s : scheduler) : scheduler :=
  MkScheduler (schTaskNodePool s) (tkFree s) (freeSize s) (tkBusy s) n
              (tkMap s) (schTimerNodePool s) (tmMap s) (spawned s).

Definition set_tkMap (f : gmap string nat -> gmap string nat) (s : scheduler) : scheduler :=
  MkScheduler (schTaskNodePool s) (tkFree s) (freeSize s) (tkBusy s) (busySize s)
              (f (tkMap s)) (schTimerNodePool s) (tmMap s) (spawned s).

Definition set_timerPool (f : list schTmcbNode -> list schTmcbNode) (s : scheduler) : scheduler :=
  MkScheduler (schTaskNodePool s) (tkFree s) (freeSize s) (tkBusy s) (busySize s)
              (tkMap s) (f (schTimerNodePool s)) (tmMap s) (spawned s).

Definition set_tmMap (f : gmap nat nat -> gmap nat nat) (s : scheduler) : scheduler :=
  MkScheduler (schTaskNodePool s) (tkFree s) (freeSize s) (tkBusy s) (busySize s)
              (tkMap s) (schTimerNodePool s) (f (tmMap s)) (spawned s).

Definition set_spawned (l : list nat) (s : scheduler) : scheduler :=
  MkScheduler (schTaskNodePool s) (tkFree s) (freeSize s) (tkBusy s) (busySize s)
              (tkMap s) (schTimerNodePool s) (tmMap s) l.

Definition set_last (p : option nat) (n : schTaskNode) : schTaskNode :=
  MkNode (task n) p (next n).

Definition set_next (p : option nat) (n : schTaskNode) : schTaskNode :=
  MkNode (task n) (last n) p.

Definition set_task (f : schTask -> schTask) (n : schTaskNode) : schTaskNode :=
  MkNode (f (task n)) (last n) (next n).

Abbreviation SD := (M scheduler).

(** *** Pointers into the pools *)

(** [*p] for a task-node pointer: [nil] and dangling pointers panic. *)
Definition nodeAt (p : option nat) : SD schTaskNode :=
  fun s => match p with
           | None => Panics
           | Some i => match schTaskNodePool s !! i with
                       | Some n => Returns (n, s)
                       | None => Panics
                       end
           end.

(** [p.field = v] for a task-node pointer. *)
Definition updNode (p : option nat) (f : schTaskNode -> schTaskNode) : SD unit :=
  _ ← nodeAt p;
  modify (set_pool (alter f (default 0%nat p))).

Section Impl.
Context `{SC : SchedConsts}.

(** *** [schSchedulerInit] *)

Definition zeroTask : schTask :=
  MkTask "" None None 0 None None (MkDog false false 0 0 0) None None 0
         (replicate (Z.to_nat schMaxTaskTimer) None) ∅.

(** The body of the first loop: [last] and [next] are computed with a
    mask, [tmIdxTab] is a fresh map. *)
Definition initNode (loop : Z) : schTaskNode :=
  MkNode zeroTask
    (Some (Z.to_nat (Z.land (loop - 1 + schTaskNodePoolSize) (schTaskNodePoolSize - 1))))
    (Some (Z.to_nat (Z.land (loop + 1) (schTaskNodePoolSize - 1)))).

Definition schSchedulerInit : scheduler :=
  MkScheduler (initNode <$> seqZ 0 schTaskNodePoolSize)
              (Some 0%nat) schTaskNodePoolSize None 0 ∅
              (replicate (Z.to_nat schTimerNodePoolSize) (MkTmcbNode (Some (MkChan [] 1))))
              ∅ [].

(** *** The free queue and the busy queue *)

Definition decFreeSize : SD unit := modify (fun s => set_freeSize (freeSize s - 1) s).
Definition incFreeSize : SD unit := modify (fun s => set_freeSize (freeSize s + 1) s).
Definition decBusySize : SD unit := modify (fun s => set_busySize (busySize s - 1) s).
Definition incBusySize : SD unit := modify (fun s => set_busySize (busySize s + 1) s).

Definition schGetTaskNode : SD (SchErrno * option nat) :=
  s ← get;
  match tkFree s with
  | None => mret (SchEnoResource, None)
  | Some _ =>
      let tkn := tkFree s in
      n ← nodeAt tkn;
      bad ← (if bool_decide (last n = tkn) && bool_decide (next n = tkn) then
               modify (set_tkFree None);;
               decFreeSize;;
               s' ← get; mret (bool_decide (freeSize s' ≠ 0))
             else
               updNode (next n) (set_last (last n));;
               updNode (last n) (set_next (next n));;
               modify (set_tkFree (next n));;
               decFreeSize;;
               s' ← get; mret (bool_decide (freeSize s' <= 0)));
      if bad : bool then mret (SchEnoInternal, None)
      else
        updNode tkn (set_next tkn);;
        updNode tkn (set_last tkn);;
        mret (SchEnoNone, tkn)
  end.

Definition schRetTaskNode (ptn : option nat) : SD SchErrno :=
  match ptn with
  | None => mret SchEnoParameter
  | Some _ =>
      s ← get;
      match tkFree s with
      | None =>
          updNode ptn (set_last ptn);;
          updNode ptn (set_next ptn)
      | Some _ =>
          f ← nodeAt (tkFree s);
          updNode ptn (set_last (last f));;
          updNode (last f) (set_next ptn);;
          updNode ptn (set_next (tkFree s));;
          updNode (tkFree s) (set_last ptn)
      end;;
      modify (set_tkFree ptn);;
      incFreeSize;;
      mret SchEnoNone
  end.

Definition schTaskBusyEnque (ptn : option nat) : SD SchErrno :=
  match ptn with
  | None => mret SchEnoParameter
  | Some _ =>
      s ← get;
      match tkBusy s with
      | None =>
          updNode ptn (set_last ptn);;
          updNode ptn (set_next ptn)
      | Some _ =>
          b ← nodeAt (tkBusy s);
          updNode ptn (set_last (last b));;
          updNode (last b) (set_next ptn);;
          updNode ptn (set_next (tkBusy s));;
          updNode (tkBusy s) (set_last ptn)
      end;;
      modify (set_tkBusy ptn);;
      incBusySize;;
      mret SchEnoNone
  end.

Definition schTaskBusyDeque (ptn : option nat) : SD SchErrno :=
  match ptn with
  | None => mret SchEnoParameter
  | Some _ =>
      s ← get;
      if bool_decide (busySize s <= 0) then mret SchEnoInternal
      else if bool_decide (busySize s = 1) then
        if bool_decide (tkBusy s ≠ ptn) then mret SchEnoInternal
        else
          modify (set_tkBusy None);;
          modify (set_busySize 0);;
          mret SchEnoNone
      else
        n ← nodeAt ptn;
        if bool_decide (last n = ptn) && bool_decide (next n = ptn) then
          if bool_decide (ptn = tkBusy s) then
            modify (set_tkBusy None);;
            decBusySize;;
            s' ← get;
            if bool_decide (busySize s' ≠ 0) then mret SchEnoInternal
            else mret SchEnoNone
          else mret SchEnoInternal
        else
          updNode (last n) (set_next (next n));;
          updNode (next n) (set_last (last n));;
          (if bool_decide (tkBusy s = ptn) then modify (set_tkBusy (next n)) else mret tt);;
          decBusySize;;
          s' ← get;
          if bool_decide (busySize s' <= 0) then mret SchEnoInternal
          else mret SchEnoNone
  end.

(** *** [schCreateTask] *)

(** The three [if ... != nil { close(...); ... = nil }] blocks. *)
Definition closeChannels (t : schTask) : schTask :=
  MkTask (name t) (utep t) None (match que t with Some _ => 0 | None => mbSize t end) None None
         (dog t) (dieCb t) (userData t) (goStatus t) (tmTab t) (tmIdxTab t).

(** "setup user task", "make timer table" and "make timer map clean". *)
Definition setupTask (d : schTaskDescription) (wd : schWatchDog) (t : schTask) : schTask :=
  MkTask (TrimSpace (Name d)) (Ep d)
         (Some (MkChan [] (Z.to_nat (MbSize d)))) (MbSize d)
         (Some (MkChan [] 1)) (Some (MkChan [] 1))
         wd (DieCb d) (UserDa d) (goStatus t)
         ((fun _ => None) <$> tmTab t) ∅.

Definition set_goStatus (g : Z) (t : schTask) : schTask :=
  MkTask (name t) (utep t) (que t) (mbSize t) (done t) (stopped t)
         (dog t) (dieCb t) (userData t) g (tmTab t) (tmIdxTab t).

(** [go sdl.schCommonTask(ptn)] *)
Definition goCommonTask (ptn : option nat) : SD unit :=
  modify (fun s => set_spawned (spawned s ++ [default 0%nat ptn]) s).

(** From "put task node to busy queue" to the end of the function. *)
Definition createTail (d : schTaskDescription) (ptn : option nat)
    : SD (SchErrno * option nat) :=
  eno ← schTaskBusyEnque ptn;
  if bool_decide (eno ≠ SchEnoNone) then mret (eno, None)
  else if bool_decide (Flag d = SchCreatedGo) then
    updNode ptn (set_task (set_goStatus SchCreatedGo));;
    goCommonTask ptn;;
    mret (SchEnoNone, ptn)
  else if bool_decide (Flag d = SchCreatedSuspend) then
    updNode ptn (set_task (set_goStatus SchCreatedSuspend));;
    mret (SchEnoNone, ptn)
  else
    updNode ptn (set_task (set_goStatus SchCreatedSuspend));;
    mret (SchEnoSuspended, ptn).

(** [make(chan schMessage, n)] panics for a negative [n]; [*taskDesc.Wd]
    panics for a nil watch dog. *)
Definition schCreateTask (taskDesc : option schTaskDescription)
    : SD (SchErrno * option nat) :=
  match taskDesc with
  | None => mret (SchEnoParameter, None)
  | Some d =>
      '(eno, ptn) ← schGetTaskNode;
      if bool_decide (eno ≠ SchEnoNone) || bool_decide (ptn = None) then mret (eno, None)
      else
        updNode ptn (set_task closeChannels);;
        match Wd d with
        | None => panic
        | Some wd =>
            if bool_decide (MbSize d < 0) then panic
            else
              updNode ptn (set_task (setupTask d wd));;
              n ← nodeAt ptn;
              s ← get;
              if bool_decide (String.length (name (task n)) <= 0)%nat then createTail d ptn
              else if bool_decide (is_Some (tkMap s !! name (task n))) then
                mret (SchEnoDuplicated, None)
              else
                modify (set_tkMap (insert (name (task n)) (default 0%nat ptn)));;
                createTail d ptn
        end
  end.

(** *** Timers of a task *)

(** [tm.tmcb.stop <- true] *)
Definition sendStop (tm : nat) : SD unit :=
  s ← get;
  match schTimerNodePool s !! tm with
  | None => panic
  | Some node =>
      match stop node with
      | None => block
      | Some c =>
          if bool_decide (capacity c <= length (buf c))%nat then block
          else modify (set_timerPool
                 (<[tm := MkTmcbNode (Some (MkChan (buf c ++ [true]) (capacity c)))]>))
      end
  end.

(** [<-tcb.stopped]: what the timer routine answers, if it ever does. *)
Definition recvStopped (ack : option bool) : SD bool :=
  match ack with
  | None => block
  | Some b => mret b
  end.

(** [tmTab[tid]] for an array of [schMaxTaskTimer] slots. *)
Definition tmTabAt (t : schTask) (tid : Z) : SD (option nat) :=
  if bool_decide (tid < 0) then panic
  else match tmTab t !! Z.to_nat tid with
       | None => panic
       | Some slot => mret slot
       end.

Definition schKillTimer (ptn : option nat) (tid : Z) (ack : option bool) : SD SchErrno :=
  if bool_decide (ptn = None) || bool_decide (tid < 0) || bool_decide (tid > schMaxTaskTimer)
  then mret SchEnoParameter
  else
    n ← nodeAt ptn;
    slot ← tmTabAt (task n) tid;
    match slot with
    | None => mret SchEnoNone
    | Some tm =>
        sendStop tm;;
        ok ← recvStopped ack;
        if ok : bool then mret SchEnoNone else mret SchEnoInternal
    end.

(** [for tm, idx := range task.tmIdxTab]; [order] is the order in which
    [range] yields the keys and [acks] the answers of the timer routines. *)
Fixpoint killTimersLoop (ptn : option nat) (order : list nat) (acks : nat -> option bool)
    : SD SchErrno :=
  match order with
  | [] => mret SchEnoNone
  | tm :: order' =>
      n ← nodeAt ptn;
      match tmIdxTab (task n) !! tm with
      | None => killTimersLoop ptn order' acks
      | Some idx =>
          slot ← tmTabAt (task n) idx;
          if bool_decide (slot ≠ Some tm) then mret SchEnoInternal
          else
            sendStop tm;;
            recvStopped (acks tm);;
            killTimersLoop ptn order' acks
      end
  end.

Definition schKillTaskTimers (ptn : option nat) (order : list nat) (acks : nat -> option bool)
    : SD SchErrno :=
  killTimersLoop ptn order acks.

(** *** Tear down *)

Definition cleanTask (t : schTask) : schTask :=
  MkTask "" None None 0 None None
         (MkDog (HaveDog (dog t)) (Inited (dog t)) SchDefaultDogCycle 0 SchDefaultDogDieThresold)
         None (userData t) SchCreatedSuspend
         ((fun _ => None) <$> tmTab t)
         (foldr (fun slot m => match slot with Some tm => delete tm m | None => m end)
                (tmIdxTab t) (tmTab t)).

(** Closing a nil channel panics. *)
Definition schTcbClean (ptn : option nat) : SD SchErrno :=
  n ← nodeAt ptn;
  match que (task n), done (task n), stopped (task n) with
  | Some _, Some _, Some _ =>
      modify (set_tmMap (fun m =>
        foldr (fun slot m => match slot with Some tm => delete tm m | None => m end)
              m (tmTab (task n))));;
      updNode ptn (set_task cleanTask);;
      mret SchEnoNone
  | _, _, _ => panic
  end.

(** [schStopTaskEx]. The die callback runs in user context and its
    result is only logged. *)
Definition schStopTaskEx (ptn : option nat) (order : list nat) (acks : nat -> option bool)
    : SD SchErrno :=
  match ptn with
  | None => mret SchEnoParameter
  | Some _ =>
      eno ← schTaskBusyDeque ptn;
      if bool_decide (eno ≠ SchEnoNone) then mret eno
      else
        eno ← schKillTaskTimers ptn order acks;
        if bool_decide (eno ≠ SchEnoNone) then mret eno
        else
          eno ← schTcbClean ptn;
          if bool_decide (eno ≠ SchEnoNone) then mret eno
          else
            eno ← schRetTaskNode ptn;
            if bool_decide (eno ≠ SchEnoNone) then mret eno
            else
              n ← nodeAt ptn;
              (if bool_decide (0 < String.length (name (task n)))%nat
               then modify (set_tkMap (delete (name (task n))))
               else mret tt);;
              mret SchEnoNone
  end.

(** *** The shape of the two queues

    [dll pool prev l after]: the nodes [l] are chained in this order by
    their [next] pointers, with matching [last] pointers; the first one
    points back to [prev], the last one forward to [after]. *)
Fixpoint dll (pool : list schTaskNode) (prev : nat) (l : list nat) (after : nat) : Prop :=
  match l with
  | [] => True
  | x :: l' =>
      (exists n, pool !! x = Some n /\ last n = Some prev /\ next n = Some (hd after l'))
      /\ dll pool x l' after
  end.

(** A queue head [head] and the circular doubly linked list [l] behind
    it. *)
Definition ring (pool : list schTaskNode) (head : option nat) (l : list nat) : Prop :=
  match l with
  | [] => head = None
  | x :: _ => head = Some x /\ dll pool (List.last l x) l x
  end.

(** The state of the pool: the free queue holds exactly [fl], the busy
    queue exactly [bl], no node is in both or twice in one, and the two
    counters are the lengths. *)
Record queues (s : scheduler) (fl bl : list nat) : Prop := MkQueues {
  q_free : ring (schTaskNodePool s) (tkFree s) fl;
  q_busy : ring (schTaskNodePool s) (tkBusy s) bl;
  q_freeSize : freeSize s = Z.of_nat (length fl);
  q_busySize : busySize s = Z.of_nat (length bl);
  q_nodup : NoDup (fl ++ bl);
}.

(** P3 of the specification. *)
Definition poolAccounted (s : scheduler) : Prop :=
  freeSize s + busySize s = schTaskNodePoolSize.

End Impl.

End Sched.

(** * Concrete collaborators and states used to exercise the model *)

Module Fixtures.
Import Shell.

(** A timer manager that hands out consecutive timer numbers and whose
    [StartTimer] reports [startResult]. *)
Definition timerService (startResult : Z) : TimerService :=
  {| TimerManager := nat;
     Timer := nat;
     TmErrno := Z;
     TmEnoNone := 0;
     GetTimer := fun _ _ n => ((n, 0), S n);
     SetTimerData := fun _ _ n => n;
     StartTimer := fun _ n => (startResult, n);
     KillTimer := fun _ n => (0, n) |}.

(** A codec with four-byte keys; the status of an RPTK frame travels in
    [PayloadLength]. *)
Definition codec : PeerCodec :=
  {| DsKeyLength := 4;
     MSBR_MT_EV := 0; MSBR_MT_TX := 1; MSBR_MT_BLKH := 2; MSBR_MT_BLK := 3;
     PID_EXT := 1;
     MID_CHKK := 8; MID_RPTK := 9;
     pkgCheckKey := fun _ c => Some (MkPackage 1 8 (chkkKey c) 0 []);
     pkgReportKey := fun _ r => Some (MkPackage 1 9 (rptkKey r) (Status r) []);
     GetExtMessage := fun pkg =>
       if bool_decide (Mid pkg = 8) then
         Some (MkExtMessage 8 (Some (MkCheckKey (Key pkg))) None)
       else if bool_decide (Mid pkg = 9) then
         Some (MkExtMessage 9 None (Some (MkReportKey (Key pkg) (PayloadLength pkg))))
       else None |}.

Definition peerA : shellPeerID := ShellPeerID [Byte.x00; Byte.x01] 1 [Byte.x0a].
Definition peerB : shellPeerID := ShellPeerID [Byte.x00; Byte.x01] 1 [Byte.x0b].

Definition keyAA : list byte := [Byte.xaa; Byte.x00; Byte.x00; Byte.x00].

Definition reqAA : MsgShellBroadcastReq := MkBroadcastReq 0 [Byte.xaa] [Byte.x68; Byte.x69] None.

Definition instOf (id : shellPeerID) (queued : list P2pPackage) (cap : nat)
    (st : peerStatus) : shellPeerInst :=
  MkPeerInst id (MkChan queued cap) 7 st 0.

Definition noStat : shMgrBcrStat := MkBcrStat 0 0 0 0 0 0 0 0 0 0 0 0 0 0.

Definition filler : P2pPackage := MkPackage 1 0 [] 0 [].

(** A shell over [timerService r] with deduplication on and the given
    peers, known keys and pending negotiations. *)
Definition shell (r : Z) (peers : list (shellPeerID * shellPeerInst)) (known : list (DsKey * nat))
    (pending : list (deDupKey * @deDupVal (timerService r)))
    : @ShellManager (timerService r) :=
  @MkShellManager (timerService r) (list_to_map peers) true 10%nat
                  (list_to_map known) (list_to_map pending) noStat [].

(** The timer manager whose [StartTimer] succeeds, and one whose
    [StartTimer] always fails. *)
Definition ts0 : TimerService := timerService 0.
Definition ts1 : TimerService := timerService 1.

(** The pending entry for [keyAA] and peer A. *)
Definition ddkA : deDupKey := MkDeDupKey keyAA peerA.
Definition ddvA : @deDupVal ts0 := @MkDeDupVal ts0 reqAA 3%nat.

(** An RPTK frame for [keyAA] from [id] reporting [st]. *)
Definition rptkFrom (id : shellPeerID) (st : Z) : P2pPackageRx :=
  MkPackageRx 1 9 [Byte.xaa] st [] id.

(** A CHKK frame for [keyAA] from [id]. *)
Definition chkkFrom (id : shellPeerID) : P2pPackageRx :=
  MkPackageRx 1 8 [Byte.xaa] 0 [] id.

(** *** The scheduler *)

(** ASCII white space, as [strings.TrimSpace] removes it. *)
Definition isSpace (a : Ascii.ascii) : bool :=
  match Ascii.nat_of_ascii a with
  | 9%nat | 10%nat | 11%nat | 12%nat | 13%nat | 32%nat => true
  | _ => false
  end.

Fixpoint trimLeft (l : list Ascii.ascii) : list Ascii.ascii :=
  match l with
  | a :: l' => if isSpace a then trimLeft l' else l
  | [] => []
  end.

Definition trimSpace (s : string) : string :=
  String.string_of_list_ascii
    (rev (trimLeft (rev (trimLeft (String.list_ascii_of_string s))))).

(** A pool of four task nodes, four timer nodes and two timer slots per
    task. *)
Definition consts : Sched.SchedConsts :=
  {| Sched.schTaskNodePoolSize := 4;
     Sched.schTimerNodePoolSize := 4;
     Sched.schMaxTaskTimer := 2;
     Sched.SchCreatedGo := 0;
     Sched.SchCreatedSuspend := 1;
     Sched.SchDefaultDogCycle := 1;
     Sched.SchDefaultDogDieThresold := 2;
     Sched.TrimSpace := trimSpace |}.

Definition taskA : Sched.schTaskDescription :=
  Sched.MkDesc " a" 1 (Some 0%nat) (Some (Sched.MkDog false false 1 0 2)) 0 None None.

(** The scheduler after [schSchedulerInit] and one [schCreateTask] of
    [taskA]. *)
Definition sched0 : Sched.scheduler := Sched.schSchedulerInit (SC := consts).

Definition sched1 : Sched.scheduler :=
  match Sched.schCreateTask (SC := consts) (Some taskA) sched0 with
  | Returns (_, s) => s
  | _ => sched0
  end.

End Fixtures.

(** * Reasoning about computations *)

Ltac unfold_monad :=
  unfold mbind, M_bind, bind, mret, M_ret, ret, get, put, modify, block, panic in *.

Section Hoare.
Context {St : Type}.

Lemma wp_Returns {A} (m : M St A) s Q :
  wp m s Q <-> exists a s', m s = Returns (a, s') /\ Q a s'.
Proof.
  unfold wp. split.
  - destruct (m s) as [[a s']| |]; [eauto | tauto | tauto].
  - intros (a & s' & -> & HQ). exact HQ.
Qed.

Lemma wp_bind {A B} (m : M St A) (k : A -> M St B) s Q :
  wp m s (fun a s' => wp (k a) s' Q) -> wp (m ≫= k) s Q.
Proof.
  unfold wp. unfold_monad. simpl.
  destruct (m s) as [[a s']| |]; tauto.
Qed.

Lemma wp_mono {A} (m : M St A) s (Q Q' : A -> St -> Prop) :
  wp m s Q -> (forall a s', Q a s' -> Q' a s') -> wp m s Q'.
Proof.
  unfold wp. destruct (m s) as [[a s']| |]; auto.
Qed.

Lemma wp_ret {A} (a : A) (s : St) (Q : A -> St -> Prop) : Q a s -> wp (mret a) s Q.
Proof. intros HQ. exact HQ. Qed.

Lemma wp_get (s : St) (Q : St -> St -> Prop) : Q s s -> wp get s Q.
Proof. intros HQ. exact HQ. Qed.

Lemma wp_modify (f : St -> St) (s : St) (Q : unit -> St -> Prop) : Q tt (f s) -> wp (modify f) s Q.
Proof. intros HQ. exact HQ. Qed.

Lemma wp_eq {A} (m : M St A) s a s' (Q : A -> St -> Prop) :
  m s = Returns (a, s') -> Q a s' -> wp m s Q.
Proof. intros Hm HQ. unfold wp. by rewrite Hm. Qed.

Lemma wp_post {A} (m : M St A) s Q : wp m s Q -> post m s Q.
Proof. unfold wp, post. destruct (m s) as [[a s']| |]; tauto. Qed.

Lemma post_Returns {A} (m : M St A) s Q a s' :
  post m s Q -> m s = Returns (a, s') -> Q a s'.
Proof. unfold post. intros HQ Hm. rewrite Hm in HQ. exact HQ. Qed.

Lemma post_bind {A B} (m : M St A) (k : A -> M St B) s Q :
  post m s (fun a s' => post (k a) s' Q) -> post (m ≫= k) s Q.
Proof.
  unfold post. unfold_monad. simpl.
  destruct (m s) as [[a s']| |]; tauto.
Qed.

Lemma post_mono {A} (m : M St A) s (Q Q' : A -> St -> Prop) :
  post m s Q -> (forall a s', Q a s' -> Q' a s') -> post m s Q'.
Proof.
  unfold post. destruct (m s) as [[a s']| |]; auto.
Qed.

End Hoare.

Lemma int64_small z : - 2 ^ 63 <= z < 2 ^ 63 -> int64 z = z.
Proof.
  intros Hz. unfold int64.
  rewrite Z.mod_small by lia. lia.
Qed.

(** * Properties of the chain shell *)

Module ShellProofs.
Import Shell.

Ltac brute :=
  unfold post; unfold_monad; cbv beta zeta;
  repeat (case_match; simplify_eq; simpl in *; try done); try done.

Section Facts.
Context `{TS : TimerService} `{PC : PeerCodec}.

Lemma deref_Some s spi pe :
  peerActived s !! spi = Some pe -> deref spi s = Returns (pe, s).
Proof. intros Hpe. unfold deref. by rewrite Hpe. Qed.

Lemma txSend_room s spi pe pkg :
  peerActived s !! spi = Some pe ->
  chanFull (txChan pe) = false ->
  txSend spi pkg s =
    Returns (tt, set_peerActived
                   (insert spi (set_txChan (MkChan (buf (txChan pe) ++ [pkg])
                                                   (capacity (txChan pe))) pe)) s).
Proof.
  intros Hpe Hroom. unfold txSend. unfold_monad.
  rewrite (deref_Some _ _ _ Hpe), Hroom. reflexivity.
Qed.

Lemma send2Peer_full s spi pe req :
  peerActived s !! spi = Some pe ->
  chanFull (txChan pe) = true ->
  send2Peer spi req s =
    Returns (SchEnoResource,
             set_peerActived (insert spi (set_txDiscrd (int64 (txDiscrd pe + 1)) pe)) s).
Proof.
  intros Hpe Hfull. unfold send2Peer, discard, store. unfold_monad.
  rewrite (deref_Some _ _ _ Hpe), Hfull. reflexivity.
Qed.

Lemma send2Peer_room s spi pe req :
  peerActived s !! spi = Some pe ->
  chanFull (txChan pe) = false ->
  send2Peer spi req s =
    Returns (SchEnoNone,
             set_peerActived
               (insert spi (set_txChan (MkChan (buf (txChan pe) ++ [bcr2Package req])
                                               (capacity (txChan pe))) pe)) s).
Proof.
  intros Hpe Hroom. unfold send2Peer. unfold_monad.
  rewrite (deref_Some _ _ _ Hpe), Hroom.
  rewrite (txSend_room _ _ _ _ Hpe Hroom). reflexivity.
Qed.

Lemma send2Peer_not_Blocks s spi req : send2Peer spi req s ≠ Blocks.
Proof.
  unfold send2Peer. unfold_monad.
  destruct (peerActived s !! spi) as [pe|] eqn:Hpe.
  - rewrite (deref_Some _ _ _ Hpe).
    destruct (chanFull (txChan pe)) eqn:Hfull.
    + unfold discard, store. unfold_monad. discriminate.
    + rewrite (txSend_room _ _ _ _ Hpe Hfull). discriminate.
  - unfold deref. rewrite Hpe. discriminate.
Qed.

Lemma checkKey2Peer_full s spi pe ddk :
  peerActived s !! spi = Some pe ->
  chanFull (txChan pe) = true ->
  checkKey2Peer spi ddk s =
    Returns (Some (ErrSch SchEnoResource),
             set_peerActived (insert spi (set_txDiscrd (int64 (txDiscrd pe + 1)) pe)) s).
Proof.
  intros Hpe Hfull. unfold checkKey2Peer, discard, store. unfold_monad.
  rewrite (deref_Some _ _ _ Hpe), Hfull. reflexivity.
Qed.

Lemma checkKey2Peer_not_Blocks s spi ddk : checkKey2Peer spi ddk s ≠ Blocks.
Proof.
  unfold checkKey2Peer. unfold_monad.
  destruct (peerActived s !! spi) as [pe|] eqn:Hpe.
  - rewrite (deref_Some _ _ _ Hpe).
    destruct (chanFull (txChan pe)) eqn:Hfull.
    + unfold discard, store. unfold_monad. discriminate.
    + destruct (pkgCheckKey _ _); [|discriminate].
      rewrite (txSend_room _ _ _ _ Hpe Hfull). discriminate.
  - unfold deref. rewrite Hpe. discriminate.
Qed.


(** *** The known-key map *)

Lemma checkKeyMap_spec s k :
  checkKeyMap k s =
    Returns (if bool_decide (is_Some (deDupKeyMap s !! k)) then SKM_DUPLICATED else SKM_OK, s).
Proof.
  unfold checkKeyMap. unfold_monad.
  by destruct (bool_decide (is_Some (deDupKeyMap s !! k))).
Qed.

Lemma setKeyMap_known s k :
  is_Some (deDupKeyMap s !! k) -> setKeyMap k s = Returns (SKM_DUPLICATED, s).
Proof.
  intros Hk. unfold setKeyMap. unfold_monad.
  by rewrite (bool_decide_eq_true_2 _ Hk).
Qed.

Lemma setKeyMap_fresh s k :
  deDupKeyMap s !! k = None ->
  setKeyMap k s =
    let '((tm, err), t1) := GetTimer keyTime CbDeDupKey (tmDedup s) in
    if bool_decide (err ≠ TmEnoNone) then Returns (SKM_FAILED, set_tmDedup t1 s)
    else
      let t3 := (StartTimer tm (SetTimerData tm (TdKey k) t1)).2 in
      Returns (SKM_OK, set_deDupKeyMap (insert k tm) (set_tmDedup t3 s)).
Proof.
  intros Hk. unfold setKeyMap, tmGetTimer, tmSetTimerData, tmStartTimer. unfold_monad.
  rewrite bool_decide_eq_false_2 by (rewrite Hk; by intros [? ?]).
  destruct (GetTimer keyTime CbDeDupKey (tmDedup s)) as [[tm err] t1]. simpl.
  destruct (bool_decide (err ≠ TmEnoNone)); [reflexivity|].
  simpl. destruct (StartTimer tm (SetTimerData tm (TdKey k) t1)) as [e t3].
  reflexivity.
Qed.


(** *** Duplicate local origination *)

Lemma doStat_spec mt l s :
  exists st, doStat mt l s = Returns (tt, set_bcrStat st s).
Proof. unfold doStat. unfold_monad. eauto. Qed.

(** C1 (as the code has it). With deduplication on, a broadcast request of
    type Event, Tx, BlockHeader or Block whose key is already in the
    known-key map is rejected with [SchEnoUserTask]; nothing but the
    broadcast statistics changes: the peer table with its tx channels,
    both deduplication maps and the timer manager are as before. *)
Theorem broadcastReq_duplicate_rejected (s : ShellManager) (ids : list shellPeerID)
    (req : MsgShellBroadcastReq) :
  deDup s = true ->
  isBroadcastType (MsgType req) = true ->
  is_Some (deDupKeyMap s !! mkDsKey (reqKey req)) ->
  exists st,
    broadcastReq ids req s = Returns (SchEnoUserTask, set_bcrStat st s)
    /\ peerActived (set_bcrStat st s) = peerActived s
    /\ deDupKeyMap (set_bcrStat st s) = deDupKeyMap s
    /\ deDupMap (set_bcrStat st s) = deDupMap s
    /\ tmDedup (set_bcrStat st s) = tmDedup s.
Proof.
  intros Hdd Hty Hk.
  destruct (doStat_spec (MsgType req) (MkLocals 1 0 0 0 0 0 0 0) s) as [st Hst].
  exists st. split; [|by repeat split].
  unfold broadcastReq. rewrite Hty. unfold_monad.
  rewrite Hdd, (setKeyMap_known _ _ Hk).
  change (bool_decide (SKM_DUPLICATED = SKM_DUPLICATED)
          || bool_decide (SKM_DUPLICATED = SKM_FAILED)) with true.
  cbv beta iota. rewrite Hst. reflexivity.
Qed.

(** *** Frames received from a peer *)

Lemma reportKey2Peer_full s spi pe k st :
  peerActived s !! spi = Some pe ->
  chanFull (txChan pe) = true ->
  reportKey2Peer spi k st s =
    Returns (Some (ErrSch SchEnoResource),
             set_peerActived (insert spi (set_txDiscrd (int64 (txDiscrd pe + 1)) pe)) s).
Proof.
  intros Hpe Hfull. unfold reportKey2Peer, discard, store. unfold_monad.
  rewrite (deref_Some _ _ _ Hpe), Hfull. reflexivity.
Qed.

Lemma reportKey2Peer_room s spi pe k st :
  peerActived s !! spi = Some pe ->
  chanFull (txChan pe) = false ->
  reportKey2Peer spi k st s =
    match pkgReportKey (pi pe) (MkReportKey k st) with
    | None => Returns (Some (ErrNew "reportKey2Peer: ReportKey failed"), s)
    | Some upkg =>
        Returns (None,
                 set_peerActived
                   (insert spi (set_txChan (MkChan (buf (txChan pe) ++ [upkg])
                                                   (capacity (txChan pe))) pe)) s)
    end.
Proof.
  intros Hpe Hroom. unfold reportKey2Peer. unfold_monad.
  rewrite (deref_Some _ _ _ Hpe), Hroom.
  destruct (pkgReportKey _ _) as [upkg|]; [|reflexivity].
  rewrite (txSend_room _ _ _ _ Hpe Hroom). reflexivity.
Qed.

Lemma chanFull_false {A} (c : chan A) :
  (length (buf c) < capacity c)%nat -> chanFull c = false.
Proof. intros Hlt. unfold chanFull. apply bool_decide_eq_false. lia. Qed.

Lemma chanFull_true {A} (c : chan A) :
  (capacity c <= length (buf c))%nat -> chanFull c = true.
Proof. intros Hle. unfold chanFull. by apply bool_decide_eq_true. Qed.


Lemma reportKeyFromPeer_head s rxPkg msg pe :
  GetExtMessage (rx2Package rxPkg) = Some msg ->
  extMid msg = uint32 MID_RPTK ->
  peerActived s !! PeerInfo rxPkg = Some pe ->
  status pe = pisActive ->
  let ddk := MkDeDupKey (mkDsKey (rxKey rxPkg)) (PeerInfo rxPkg) in
  reportKeyFromPeer rxPkg s =
    match deDupMap s !! ddk with
    | None => Returns (SchEnoNotFound, s)
    | Some ddv =>
        match Rptk msg with
        | None => Panics
        | Some r =>
            if bool_decide (Status r = KS_NOTEXIST)
            then send2Peer (PeerInfo rxPkg) (bcReq ddv) (entryCleared ddk ddv s)
            else Returns (SchEnoNone, entryCleared ddk ddv s)
        end
    end.
Proof.
  intros Hdec Hmid Hpe Hact ddk.
  unfold reportKeyFromPeer. rewrite Hdec.
  rewrite bool_decide_eq_false_2 by (intros Hne; by apply Hne).
  unfold_monad. cbv beta zeta. rewrite Hpe.
  rewrite bool_decide_eq_false_2 by (intros Hne; by apply Hne).
  fold ddk. destruct (deDupMap s !! ddk) as [ddv|]; [|reflexivity].
  unfold tmKillTimer, entryCleared. unfold_monad.
  destruct (KillTimer (timer ddv) (tmDedup s)) as [e t'].
  destruct (Rptk msg) as [r|]; [|reflexivity].
  by destruct (bool_decide (Status r = KS_NOTEXIST)).
Qed.



(** *** The dispatcher and peers that are not Active *)


Lemma checkKey2Peer_room s spi pe ddk :
  peerActived s !! spi = Some pe ->
  chanFull (txChan pe) = false ->
  checkKey2Peer spi ddk s =
    match pkgCheckKey (pi pe) (MkCheckKey (key ddk)) with
    | None => Returns (Some (ErrNew "checkKey2Peer: ReportKey failed"), s)
    | Some upkg =>
        Returns (None,
                 set_peerActived
                   (insert spi (set_txChan (MkChan (buf (txChan pe) ++ [upkg])
                                                   (capacity (txChan pe))) pe)) s)
    end.
Proof.
  intros Hpe Hroom. unfold checkKey2Peer. unfold_monad.
  rewrite (deref_Some _ _ _ Hpe), Hroom.
  destruct (pkgCheckKey _ _) as [upkg|]; [|reflexivity].
  rewrite (txSend_room _ _ _ _ Hpe Hroom). reflexivity.
Qed.

Lemma frame_insert id pe s : frame id s (set_peerActived (insert id pe) s).
Proof. intros q Hq. simpl. by apply lookup_insert_ne. Qed.

Lemma frame_refl id s : frame id s s.
Proof. by intros q Hq. Qed.

Lemma checkKey2Peer_frame s id pe ddk :
  peerActived s !! id = Some pe ->
  wp (checkKey2Peer id ddk) s (fun _ s' => frame id s s').
Proof.
  intros Hpe. unfold wp.
  destruct (chanFull (txChan pe)) eqn:Hfull.
  - rewrite (checkKey2Peer_full _ _ _ _ Hpe Hfull). apply frame_insert.
  - rewrite (checkKey2Peer_room _ _ _ _ Hpe Hfull).
    destruct (pkgCheckKey _ _); [apply frame_insert | apply frame_refl].
Qed.

Lemma checkKey_frame id req s :
  wp (checkKey id req) s (fun _ s' => frame id s s').
Proof.
  unfold checkKey. unfold_monad. cbv beta zeta. unfold wp.
  destruct (peerActived s !! id) as [pe|] eqn:Hpe; [|apply frame_refl].
  destruct (bool_decide _); [apply frame_refl|].
  pose proof (checkKey2Peer_frame s id pe (MkDeDupKey (mkDsKey (reqKey req)) id) Hpe) as Hck.
  unfold wp in Hck.
  destruct (checkKey2Peer id _ s) as [[err s1]| |]; [|done|done].
  destruct err; [exact Hck|].
  unfold tmGetTimer, tmSetTimerData, tmStartTimer. unfold_monad.
  destruct (GetTimer chkkTime CbDeDupTimer (tmDedup s1)) as [[tm e] t1].
  destruct (bool_decide (e ≠ TmEnoNone)); [exact Hck|].
  simpl.
  destruct (StartTimer tm _) as [e' t3].
  destruct (bool_decide (e' ≠ TmEnoNone)); exact Hck.
Qed.

Lemma send2Peer_frame s id pe req :
  peerActived s !! id = Some pe ->
  wp (send2Peer id req) s (fun _ s' => frame id s s').
Proof.
  intros Hpe. unfold wp.
  destruct (chanFull (txChan pe)) eqn:Hfull.
  - rewrite (send2Peer_full _ _ _ _ Hpe Hfull). apply frame_insert.
  - rewrite (send2Peer_room _ _ _ _ Hpe Hfull). apply frame_insert.
Qed.

Lemma inactiveKept_refl s : inactiveKept s s.
Proof. by intros q pe Hq _. Qed.

Lemma inactiveKept_trans s1 s2 s3 :
  inactiveKept s1 s2 -> inactiveKept s2 s3 -> inactiveKept s1 s3.
Proof. intros H12 H23 q pe Hq Hst. apply H23; [by apply H12 | done]. Qed.

Lemma frame_inactiveKept id pe s s' :
  peerActived s !! id = Some pe -> status pe = pisActive ->
  frame id s s' -> inactiveKept s s'.
Proof.
  intros Hpe Hact Hfr q pe' Hq Hst.
  rewrite Hfr; [done|]. intros ->. congruence.
Qed.

Lemma bcrPeer_inactiveKept req id l s :
  wp (bcrPeer req id l) s (fun _ s' => inactiveKept s s').
Proof.
  unfold bcrPeer. unfold_monad. cbv beta zeta. unfold wp.
  destruct (peerActived s !! id) as [pe|] eqn:Hpe; [|apply inactiveKept_refl].
  destruct (bool_decide (status pe ≠ pisActive)) eqn:Hst; [apply inactiveKept_refl|].
  apply bool_decide_eq_false in Hst.
  assert (Hact : status pe = pisActive) by (by destruct (status pe); [|destruct Hst]).
  destruct (notExcluded id req); [|apply inactiveKept_refl].
  destruct (negb (deDup s)).
  - pose proof (send2Peer_frame s id pe req Hpe) as Hfr. unfold wp in Hfr.
    destruct (send2Peer id req s) as [[eno s1]| |]; [|done|done].
    destruct (bool_decide (eno = SchEnoNone)); exact (frame_inactiveKept _ _ _ _ Hpe Hact Hfr).
  - pose proof (checkKey_frame id req s) as Hfr. unfold wp in Hfr.
    destruct (checkKey id req s) as [[eno s1]| |]; [|done|done].
    destruct (bool_decide (eno = SchEnoNone)); exact (frame_inactiveKept _ _ _ _ Hpe Hact Hfr).
Qed.

Lemma bcrRange_inactiveKept req ids l s :
  wp (bcrRange req ids l) s (fun _ s' => inactiveKept s s').
Proof.
  revert l s. induction ids as [|id ids IH]; intros l s.
  - apply inactiveKept_refl.
  - simpl. apply wp_bind.
    eapply wp_mono; [apply bcrPeer_inactiveKept|].
    intros l' s1 H1. eapply wp_mono; [apply IH|].
    intros l'' s2 H2. exact (inactiveKept_trans _ _ _ H1 H2).
Qed.

Lemma setKeyMap_peers k s :
  wp (setKeyMap k) s (fun _ s' => peerActived s' = peerActived s).
Proof.
  unfold wp. destruct (deDupKeyMap s !! k) as [t|] eqn:Hk.
  - rewrite setKeyMap_known by (rewrite Hk; eauto). reflexivity.
  - rewrite (setKeyMap_fresh _ _ Hk).
    destruct (GetTimer _ _ _) as [[tm err] t1].
    by destruct (bool_decide _).
Qed.

Lemma doStat_wp mt l s (Q : unit -> ShellManager -> Prop) :
  (forall st, Q tt (set_bcrStat st s)) -> wp (doStat mt l) s Q.
Proof.
  intros HQ. destruct (doStat_spec mt l s) as [st Hst].
  unfold wp. rewrite Hst. apply HQ.
Qed.

(** C6. [broadcastReq] always returns, and a peer whose status is not
    Active (a Closing peer) is exactly as before: nothing is enqueued on
    its tx channel, neither on the direct path ([send2Peer]) nor on the
    CHKK path ([checkKey]), whatever the request and the iteration order. *)
Theorem broadcastReq_skips_inactive (s : ShellManager) (ids : list shellPeerID)
    (req : MsgShellBroadcastReq) :
  exists eno s',
    broadcastReq ids req s = Returns (eno, s')
    /\ forall q pe, peerActived s !! q = Some pe -> status pe ≠ pisActive ->
                    peerActived s' !! q = Some pe.
Proof.
  apply wp_Returns with (Q := fun _ s' => inactiveKept s s').
  unfold broadcastReq. cbv zeta.
  assert (Hstat : forall l s1, inactiveKept s s1 -> forall e : SchErrno,
             wp (doStat (MsgType req) l;; mret e) s1 (fun _ s' => inactiveKept s s')).
  { intros l s1 H1 e. apply wp_bind, doStat_wp. intros st. exact H1. }
  destruct (isBroadcastType (MsgType req)).
  - apply wp_bind, wp_get.
    destruct (deDup s).
    + apply wp_bind. eapply wp_mono; [apply setKeyMap_peers|].
      intros skm s1 H1.
      assert (Hk1 : inactiveKept s s1).
      { intros q pe Hq _. by rewrite H1. }
      destruct (_ || _).
      * by apply Hstat.
      * apply wp_bind. eapply wp_mono; [apply bcrRange_inactiveKept|].
        intros l s2 H2. apply Hstat. exact (inactiveKept_trans _ _ _ Hk1 H2).
    + apply wp_bind. eapply wp_mono; [apply bcrRange_inactiveKept|].
      intros l s2 H2. by apply Hstat.
  - apply Hstat, inactiveKept_refl.
Qed.

(** *** Lifetime of a known key *)


Lemma send2Peer_K id req s :
  post (send2Peer id req) s (fun _ s' => deDupKeyMap s' = deDupKeyMap s).
Proof.
  unfold send2Peer, discard, txSend, store, deref. brute.
Qed.

Lemma checkKey_K id req s :
  post (checkKey id req) s (fun _ s' => deDupKeyMap s' = deDupKeyMap s).
Proof.
  unfold checkKey, checkKey2Peer, tmGetTimer, tmSetTimerData, tmStartTimer,
    discard, txSend, store, deref. brute.
Qed.

Lemma bcrPeer_K req id l s :
  post (bcrPeer req id l) s (fun _ s' => deDupKeyMap s' = deDupKeyMap s).
Proof.
  unfold bcrPeer. unfold_monad. cbv beta zeta. unfold post.
  destruct (peerActived s !! id) as [pe|]; [|done].
  destruct (bool_decide (status pe ≠ pisActive)); [done|].
  destruct (notExcluded id req); [|done].
  destruct (negb (deDup s)).
  - pose proof (send2Peer_K id req s) as HK. unfold post in *.
    destruct (send2Peer id req s) as [[eno s1]| |]; [|done|done].
    by destruct (bool_decide (eno = SchEnoNone)).
  - pose proof (checkKey_K id req s) as HK. unfold post in *.
    destruct (checkKey id req s) as [[eno s1]| |]; [|done|done].
    by destruct (bool_decide (eno = SchEnoNone)).
Qed.

Lemma bcrRange_K req ids l s :
  post (bcrRange req ids l) s (fun _ s' => deDupKeyMap s' = deDupKeyMap s).
Proof.
  revert l s. induction ids as [|id ids IH]; intros l s; [done|].
  simpl. apply post_bind.
  eapply post_mono; [apply bcrPeer_K|].
  intros l' s1 H1. eapply post_mono; [apply IH|].
  intros l'' s2 H2. congruence.
Qed.

Lemma keysKept_eq s s' : deDupKeyMap s' = deDupKeyMap s -> keysKept s s'.
Proof. intros Heq k. by rewrite Heq. Qed.

Lemma keysKept_trans s1 s2 s3 : keysKept s1 s2 -> keysKept s2 s3 -> keysKept s1 s3.
Proof. intros H12 H23 k Hk. by apply H23, H12. Qed.

Lemma setKeyMap_keysKept k s : post (setKeyMap k) s (fun _ s' => keysKept s s').
Proof.
  unfold post. destruct (deDupKeyMap s !! k) as [t|] eqn:Hk.
  - rewrite setKeyMap_known by (rewrite Hk; eauto). by intros k'.
  - rewrite (setKeyMap_fresh _ _ Hk).
    destruct (GetTimer _ _ _) as [[tm err] t1].
    destruct (bool_decide _); [by intros k'|].
    intros k' Hk'. simpl.
    destruct (decide (k = k')) as [->|Hne].
    + rewrite lookup_insert_eq. eauto.
    + by rewrite lookup_insert_ne.
Qed.

Lemma setKeyMap_OK_known k s s1 :
  setKeyMap k s = Returns (SKM_OK, s1) -> is_Some (deDupKeyMap s1 !! k).
Proof.
  intros Hrun. destruct (deDupKeyMap s !! k) as [t|] eqn:Hk.
  - rewrite setKeyMap_known in Hrun by (rewrite Hk; eauto). discriminate.
  - rewrite (setKeyMap_fresh _ _ Hk) in Hrun.
    destruct (GetTimer _ _ _) as [[tm err] t1].
    destruct (bool_decide _); [discriminate|].
    injection Hrun as <-. simpl. rewrite lookup_insert_eq. eauto.
Qed.

Lemma doStat_post mt l s (Q : unit -> ShellManager -> Prop) :
  (forall st, Q tt (set_bcrStat st s)) -> post (doStat mt l) s Q.
Proof.
  intros HQ. destruct (doStat_spec mt l s) as [st Hst].
  unfold post. rewrite Hst. apply HQ.
Qed.

Lemma broadcastReq_keysKept ids req s :
  post (broadcastReq ids req) s (fun _ s' => keysKept s s').
Proof.
  unfold broadcastReq. cbv zeta.
  assert (Hstat : forall l s1, keysKept s s1 -> forall e : SchErrno,
             post (doStat (MsgType req) l;; mret e) s1 (fun _ s' => keysKept s s')).
  { intros l s1 H1 e. apply post_bind, doStat_post. intros st. exact H1. }
  destruct (isBroadcastType (MsgType req)).
  - apply post_bind. unfold post at 1. simpl.
    destruct (deDup s).
    + apply post_bind. eapply post_mono; [apply setKeyMap_keysKept|].
      intros skm s1 H1.
      destruct (_ || _).
      * by apply Hstat.
      * apply post_bind. eapply post_mono; [apply bcrRange_K|].
        intros l s2 H2. apply Hstat.
        exact (keysKept_trans _ _ _ H1 (keysKept_eq _ _ H2)).
    + apply post_bind. eapply post_mono; [apply bcrRange_K|].
      intros l s2 H2. apply Hstat. by apply keysKept_eq.
  - apply Hstat. by intros k.
Qed.

Lemma handle_keeps_key e k s :
  e ≠ EvKeyTimer (TdKey k) ->
  post (handle e) s (fun _ s' =>
    is_Some (deDupKeyMap s !! k) -> is_Some (deDupKeyMap s' !! k)).
Proof.
  intros Hne. destruct e as [id tx inst|id|id|ids req|rxPkg|rxPkg|data|data|id]; simpl.
  - unfold peerActiveInd, store. brute.
  - unfold peerCloseCfm. brute.
  - unfold peerAskToCloseInd, store. brute.
  - apply post_bind. eapply post_mono; [apply broadcastReq_keysKept|].
    intros eno s1 H1. unfold post. simpl. apply H1.
  - unfold checkKeyFromPeer, reportKey2Peer, discard, txSend, store, deref. brute.
  - unfold reportKeyFromPeer, send2Peer, tmKillTimer, discard, txSend, store, deref. brute.
  - unfold deDupKeyCb. destruct data as [|k'|d].
    + brute.
    + unfold post. unfold_monad. simpl. intros Hk.
      rewrite lookup_delete_ne; [done|]. intros ->. by apply Hne.
    + brute.
  - unfold deDupTimerCb. brute.
  - unfold txDrain, store. brute.
Qed.

Lemma run_keeps_key evs k s s' :
  EvKeyTimer (TdKey k) ∉ evs ->
  run evs s = Returns (tt, s') ->
  is_Some (deDupKeyMap s !! k) -> is_Some (deDupKeyMap s' !! k).
Proof.
  revert s. induction evs as [|e evs IH]; intros s Hnot Hrun Hk.
  - injection Hrun as <-. exact Hk.
  - apply not_elem_of_cons in Hnot as [Hne Hnot].
    unfold run in Hrun. simpl in Hrun. unfold_monad.
    pose proof (handle_keeps_key e k s (not_eq_sym Hne)) as Hpost. unfold post in Hpost.
    destruct (handle e s) as [[[] s1]| |]; [|discriminate|discriminate].
    exact (IH s1 Hnot Hrun (Hpost Hk)).
Qed.


End Facts.

(** ** The theorems at concrete inputs *)

Import Fixtures.

#[local] Existing Instance codec.
#[local] Existing Instance ts0.

(** The key of [reqAA] is already known; peer A could take two frames. *)
Lemma broadcastReq_duplicate_rejected_witness :
  let s := shell 0 [(peerA, instOf peerA [] 2 pisActive)] [(keyAA, 3%nat)] [] in
  exists st,
    broadcastReq [peerA] reqAA s = Returns (SchEnoUserTask, set_bcrStat st s)
    /\ peerActived (set_bcrStat st s) = peerActived s.
Proof.
  intros s.
  destruct (broadcastReq_duplicate_rejected s [peerA] reqAA) as (st & Hrun & Hpeers & _).
  - reflexivity.
  - reflexivity.
  - exists 3%nat. vm_compute. reflexivity.
  - exists st. split; [exact Hrun | exact Hpeers].
Defined.

(** The status returned for the duplicate is [SchEnoUserTask], not
    [SchEnoDuplicated]. *)
Lemma broadcastReq_duplicate_not_SchEnoDuplicated :
  let s := shell 0 [(peerA, instOf peerA [] 2 pisActive)] [(keyAA, 3%nat)] [] in
  deDup s = true
  /\ isBroadcastType (MsgType reqAA) = true
  /\ deDupKeyMap s !! mkDsKey (reqKey reqAA) = Some 3%nat
  /\ wp (broadcastReq [peerA] reqAA) s
        (fun eno _ => eno = SchEnoUserTask /\ eno ≠ SchEnoDuplicated).
Proof. vm_compute. repeat split; discriminate. Qed.











End ShellProofs.

(** * Properties of the task-node pool *)

Module SchedProofs.
Import Sched.

#[local] Arguments dll _ _ _ _ : simpl never.
#[local] Arguments List.last _ _ _ : simpl never.

Section Facts.
Context `{SC : SchedConsts}.

(** *** Chains of nodes under pointer updates *)

Lemma dll_frame pool pool' prev l after :
  (forall x, x ∈ l -> pool' !! x = pool !! x) ->
  dll pool prev l after -> dll pool' prev l after.
Proof.
  revert prev. induction l as [|x l IH]; intros prev Hagree; [done|].
  intros [(n & Hn & Hl & Hx) Hrest]. split.
  - exists n. rewrite Hagree by apply list_elem_of_here. done.
  - apply IH; [|done]. intros y Hy. apply Hagree. by apply list_elem_of_further.
Qed.

Lemma dll_alter_outside pool f i prev l after :
  i ∉ l -> dll pool prev l after -> dll (alter f i pool) prev l after.
Proof.
  intros Hi. apply dll_frame. intros x Hx.
  apply list_lookup_alter_ne. intros ->. done.
Qed.

Lemma dll_set_prev pool prev prev' x l after :
  x ∉ l ->
  dll pool prev (x :: l) after ->
  dll (alter (set_last (Some prev')) x pool) prev' (x :: l) after.
Proof.
  intros Hx. intros [(n & Hn & Hl & Hnx) Hrest]. split.
  - exists (set_last (Some prev') n). rewrite list_lookup_alter_eq, Hn. done.
  - by apply dll_alter_outside.
Qed.

Lemma dll_set_after pool prev l after after' d :
  NoDup l -> l ≠ [] ->
  dll pool prev l after ->
  dll (alter (set_next (Some after')) (List.last l d) pool) prev l after'.
Proof.
  revert prev. induction l as [|x l IH]; intros prev Hnd Hne; [done|].
  apply NoDup_cons in Hnd as [Hx Hnd].
  intros [(n & Hn & Hl & Hnx) Hrest].
  destruct l as [|y l].
  - change (List.last [x] d) with x. split; [|done].
    exists (set_next (Some after') n). rewrite list_lookup_alter_eq, Hn. done.
  - split.
    + exists n. split; [|done].
      rewrite list_lookup_alter_ne; [done|].
      intros Heq. apply Hx. rewrite <- Heq.
      change (List.last (x :: y :: l) d) with (List.last (y :: l) d).
      destruct (exists_last (l := y :: l)) as (l0 & z & Hl0); [done|].
      rewrite Hl0, last_last. rewrite elem_of_app. right. apply list_elem_of_here.
    + change (List.last (x :: y :: l) d) with (List.last (y :: l) d).
      apply IH; done.
Qed.


Lemma dll_alter_task pool f i prev l after :
  dll pool prev l after -> dll (alter (set_task f) i pool) prev l after.
Proof.
  revert prev. induction l as [|x l IH]; intros prev; [done|].
  intros [(n & Hn & Hl & Hnx) Hrest]. split; [|by apply IH].
  destruct (decide (i = x)) as [->|Hne].
  - exists (set_task f n). rewrite list_lookup_alter_eq, Hn. done.
  - exists n. rewrite list_lookup_alter_ne by done. done.
Qed.

Lemma dll_lookup pool prev l after x :
  dll pool prev l after -> x ∈ l -> is_Some (pool !! x).
Proof.
  revert prev. induction l as [|y l IH]; intros prev Hdll Hx.
  - by apply elem_of_nil in Hx.
  - destruct Hdll as [(n & Hn & _) Hrest].
    apply elem_of_cons in Hx as [->|Hx]; [eauto | by eapply IH].
Qed.

Lemma last_in {A} (l : list A) (d : A) : l ≠ [] -> List.last l d ∈ l.
Proof.
  intros Hne. destruct (exists_last Hne) as (l0 & z & ->).
  rewrite last_last, elem_of_app. right. apply list_elem_of_here.
Qed.

Lemma last_default {A} (l : list A) (d d' : A) : l ≠ [] -> List.last l d = List.last l d'.
Proof.
  intros Hne. destruct (exists_last Hne) as (l0 & z & ->). by rewrite !last_last.
Qed.

Lemma is_Some_alter {A} (f : A -> A) (l : list A) i j :
  is_Some (l !! j) -> is_Some (alter f i l !! j).
Proof.
  intros [a Ha]. destruct (decide (i = j)) as [->|Hne].
  - rewrite list_lookup_alter_eq, Ha. simpl. eauto.
  - rewrite list_lookup_alter_ne by done. eauto.
Qed.

(** *** Pointer operations *)

Lemma wp_nodeAt s i n (Q : schTaskNode -> scheduler -> Prop) :
  schTaskNodePool s !! i = Some n -> Q n s -> wp (nodeAt (Some i)) s Q.
Proof. intros Hn HQ. unfold wp, nodeAt. by rewrite Hn. Qed.

Lemma wp_updNode s i f (Q : unit -> scheduler -> Prop) :
  is_Some (schTaskNodePool s !! i) ->
  Q tt (set_pool (alter f i) s) ->
  wp (updNode (Some i) f) s Q.
Proof.
  intros [n Hn] HQ. unfold updNode. apply wp_bind.
  eapply wp_nodeAt; [done|]. apply wp_modify. exact HQ.
Qed.

Lemma ring_tail_busy pool pool' head bl :
  (forall x, x ∈ bl -> pool' !! x = pool !! x) ->
  ring pool head bl -> ring pool' head bl.
Proof.
  intros Hagree. destruct bl as [|b bl]; [done|].
  intros [Hhead Hdll]. split; [done|]. by eapply dll_frame.
Qed.

(** *** [schGetTaskNode] *)

Lemma schGetTaskNode_empty s bl :
  queues s [] bl -> schGetTaskNode s = Returns ((SchEnoResource, None), s).
Proof.
  intros [Hfree _ _ _ _]. simpl in Hfree.
  unfold schGetTaskNode. unfold_monad. by rewrite Hfree.
Qed.

Lemma schGetTaskNode_pop s x fl bl :
  queues s (x :: fl) bl ->
  wp schGetTaskNode s (fun r s' =>
    r = (SchEnoNone, Some x)
    /\ queues s' fl bl
    /\ tkMap s' = tkMap s
    /\ is_Some (schTaskNodePool s' !! x)).
Proof.
  intros [Hfree Hbusy HfreeSz HbusySz Hnd].
  destruct Hfree as [Hhead Hdll].
  assert (Hxfl : (x ∉ fl ++ bl) /\ NoDup (fl ++ bl)) by (by apply NoDup_cons in Hnd).
  destruct Hxfl as [Hxout Hnd'].
  apply not_elem_of_app in Hxout as [Hxfl Hxbl].
  destruct Hdll as [(n & Hn & Hlast & Hnext) Hrest].
  unfold schGetTaskNode. apply wp_bind, wp_get. rewrite Hhead.
  apply wp_bind. eapply wp_nodeAt; [exact Hn|].
  apply wp_bind.
  destruct fl as [|y fl].
  - (* the last free node *)
    cbn in Hlast, Hnext. rewrite Hlast, Hnext.
    rewrite !bool_decide_eq_true_2 by done. simpl.
    apply wp_bind, wp_modify. apply wp_bind, wp_modify. apply wp_bind, wp_get.
    apply wp_ret. simpl. rewrite HfreeSz. simpl.
    apply wp_bind, wp_updNode; [simpl; eauto|].
    apply wp_bind, wp_updNode; [simpl; by apply is_Some_alter; eauto|].
    apply wp_ret. split; [done|]. split; [|split; [done|]].
    + split; simpl; try done.
      eapply ring_tail_busy; [|exact Hbusy].
      intros b Hb. rewrite !list_lookup_alter_ne; [done|intros ->; done|intros ->; done].
    + simpl. do 2 apply is_Some_alter. eauto.
  - (* more than one free node *)
    assert (Hy : y ≠ x).
    { intros ->. apply Hxfl, list_elem_of_here. }
    cbn in Hnext. rewrite Hnext.
    rewrite (bool_decide_eq_false_2 (Some y = Some x)) by (intros [=]; done).
    rewrite andb_false_r.
    set (t := List.last (y :: fl) x) in *.
    change (List.last (x :: y :: fl) x) with t in Hlast. rewrite Hlast.
    assert (Htin : t ∈ y :: fl) by (by apply last_in).
    assert (Hndfl : NoDup (y :: fl)) by (by apply NoDup_app in Hnd' as [? _]).
    destruct (dll_lookup _ _ _ _ _ Hrest Htin) as [nt Hnt].
    destruct (dll_lookup _ _ _ _ y Hrest (list_elem_of_here _ _)) as [ny Hny].
    apply wp_bind, wp_updNode; [eauto|].
    apply wp_bind, wp_updNode; [simpl; apply is_Some_alter; eauto|].
    apply wp_bind, wp_modify. apply wp_bind, wp_modify. apply wp_bind, wp_get.
    apply wp_ret. simpl. rewrite HfreeSz.
    rewrite bool_decide_eq_false_2 by (simpl length; lia).
    apply wp_bind, wp_updNode; [simpl; do 2 apply is_Some_alter; eauto|].
    apply wp_bind, wp_updNode; [simpl; do 3 apply is_Some_alter; eauto|].
    apply wp_ret. split; [done|]. split; [|split; [done|]].
    + split; simpl.
      * split; [done|].
        apply dll_alter_outside; [done|]. apply dll_alter_outside; [done|].
        rewrite (last_default (y :: fl) y x) by done. fold t.
        apply (dll_set_after _ t (y :: fl) x y x Hndfl); [done|].
        eapply dll_set_prev; [by apply NoDup_cons in Hndfl as [? _]|exact Hrest].
      * eapply ring_tail_busy; [|exact Hbusy].
        intros b Hb.
        assert (Hbfl : b ∉ y :: fl).
        { intros Hin. apply NoDup_app in Hnd' as (_ & Hdisj & _). by apply (Hdisj b). }
        rewrite !list_lookup_alter_ne; [done|..].
        -- intros ->. apply Hbfl, list_elem_of_here.
        -- intros <-. done.
        -- intros ->. done.
        -- intros ->. done.
      * simpl length in *. lia.
      * done.
      * done.
    + simpl. do 4 apply is_Some_alter. eauto.
Qed.


(** *** [schTaskBusyEnque] *)

Lemma schTaskBusyEnque_push s x fl bl :
  queues s fl bl ->
  x ∉ fl ++ bl ->
  is_Some (schTaskNodePool s !! x) ->
  wp (schTaskBusyEnque (Some x)) s (fun r s' =>
    r = SchEnoNone
    /\ queues s' fl (x :: bl)
    /\ tkMap s' = tkMap s
    /\ spawned s' = spawned s
    /\ is_Some (schTaskNodePool s' !! x)).
Proof.
  intros [Hfree Hbusy HfreeSz HbusySz Hnd] Hxout [nx Hnx].
  apply not_elem_of_app in Hxout as [Hxfl Hxbl].
  assert (Hnd' : NoDup (fl ++ x :: bl)).
  { apply NoDup_app in Hnd as (Hndf & Hdisj & Hndb).
    apply NoDup_app. split; [done|]. split; [|by apply NoDup_cons].
    intros z Hz Hin. apply elem_of_cons in Hin as [->|Hin]; [done | by apply (Hdisj z)]. }
  assert (Hoff : forall z, z ∈ fl -> z ≠ x /\ z ∉ bl).
  { intros z Hz. split; [by intros ->|].
    apply NoDup_app in Hnd as (_ & Hdisj & _). by apply Hdisj. }
  unfold schTaskBusyEnque. apply wp_bind, wp_get. apply wp_bind.
  destruct bl as [|b bl].
  - simpl in Hbusy. rewrite Hbusy.
    apply wp_bind, wp_updNode; [eauto|].
    apply wp_updNode; [simpl; apply is_Some_alter; eauto|].
    apply wp_bind, wp_modify. apply wp_bind, wp_modify. apply wp_ret.
    split; [done|]. split; [|split; [done|split; [done|]]].
    + split; simpl.
      * eapply ring_tail_busy; [|exact Hfree].
        intros z Hz. destruct (Hoff z Hz) as [Hzx _].
        by rewrite !list_lookup_alter_ne.
      * split; [done|]. change (List.last [x] x) with x. split; [|done].
        exists (set_next (Some x) (set_last (Some x) nx)).
        rewrite !list_lookup_alter_eq, Hnx. done.
      * done.
      * rewrite HbusySz. simpl length. lia.
      * done.
    + simpl. do 2 apply is_Some_alter. eauto.
  - destruct Hbusy as [Hhead Hdll]. rewrite Hhead.
    assert (Hbx : b ≠ x) by (intros ->; apply Hxbl, list_elem_of_here).
    set (t := List.last (b :: bl) b) in *.
    assert (Htin : t ∈ b :: bl) by (by apply last_in).
    assert (Htx : t ≠ x) by (intros Heq; apply Hxbl; by rewrite <- Heq).
    assert (Hndb : NoDup (b :: bl)) by (by apply NoDup_app in Hnd as (_ & _ & ?)).
    pose proof Hdll as [(nb & Hnb & Hblast & _) _].
    destruct (dll_lookup _ _ _ _ _ Hdll Htin) as [nt Hnt].
    apply wp_bind. eapply wp_nodeAt; [exact Hnb|]. rewrite Hblast.
    apply wp_bind, wp_updNode; [eauto|].
    apply wp_bind, wp_updNode; [simpl; apply is_Some_alter; eauto|].
    apply wp_bind, wp_updNode; [simpl; do 2 apply is_Some_alter; eauto|].
    apply wp_updNode; [simpl; do 3 apply is_Some_alter; eauto|].
    apply wp_bind, wp_modify. apply wp_bind, wp_modify. apply wp_ret.
    split; [done|]. split; [|split; [done|split; [done|]]].
    + split; simpl.
      * eapply ring_tail_busy; [|exact Hfree].
        intros z Hz. destruct (Hoff z Hz) as [Hzx Hzb].
        assert (Hzb' : z ≠ b) by (intros ->; apply Hzb, list_elem_of_here).
        assert (Hzt : z ≠ t) by (intros Heq; apply Hzb; rewrite Heq; exact Htin).
        by rewrite !list_lookup_alter_ne.
      * split; [done|].
        change (List.last (x :: b :: bl) x) with (List.last (b :: bl) x).
        rewrite (last_default (b :: bl) x b) by done. fold t.
        split.
        -- exists (set_next (Some b) (set_last (Some t) nx)).
           rewrite list_lookup_alter_ne by done.
           rewrite list_lookup_alter_eq.
           rewrite list_lookup_alter_ne by done.
           rewrite list_lookup_alter_eq, Hnx. done.
        -- eapply dll_set_prev; [by apply NoDup_cons in Hndb as [? _]|].
           apply dll_alter_outside; [done|].
           apply (dll_set_after _ t (b :: bl) b x b Hndb); [done|].
           apply dll_alter_outside; [done|]. exact Hdll.
      * done.
      * rewrite HbusySz. simpl length. lia.
      * done.
    + simpl. do 4 apply is_Some_alter. eauto.
Qed.

(** *** [schCreateTask] *)

Lemma queues_set_task s f i fl bl :
  queues s fl bl -> queues (set_pool (alter (set_task f) i) s) fl bl.
Proof.
  intros [Hfree Hbusy HfreeSz HbusySz Hnd].
  split; simpl; try done.
  - destruct fl as [|y fl]; [done|]. destruct Hfree as [Hhead Hdll].
    split; [done|]. by apply dll_alter_task.
  - destruct bl as [|b bl]; [done|]. destruct Hbusy as [Hhead Hdll].
    split; [done|]. by apply dll_alter_task.
Qed.

Lemma queues_set_spawned s l fl bl :
  queues s fl bl -> queues (set_spawned l s) fl bl.
Proof. intros [? ? ? ? ?]. by split. Qed.

Lemma queues_set_tkMap s f fl bl :
  queues s fl bl -> queues (set_tkMap f s) fl bl.
Proof. intros [? ? ? ? ?]. by split. Qed.

(** The part of [schCreateTask] up to the test of the task name: the head
    of the free queue is taken and set up. *)
Lemma schCreateTask_head s x fl bl d wd (Q : SchErrno * option nat -> scheduler -> Prop) :
  queues s (x :: fl) bl ->
  Wd d = Some wd ->
  0 <= MbSize d ->
  (forall s3,
     queues s3 fl bl ->
     tkMap s3 = tkMap s ->
     is_Some (schTaskNodePool s3 !! x) ->
     wp (if bool_decide (String.length (TrimSpace (Name d)) <= 0)%nat then createTail d (Some x)
         else if bool_decide (is_Some (tkMap s3 !! TrimSpace (Name d))) then
           mret (SchEnoDuplicated, None)
         else
           modify (set_tkMap (insert (TrimSpace (Name d)) x));;
           createTail d (Some x)) s3 Q) ->
  wp (schCreateTask (Some d)) s Q.
Proof.
  intros Hq Hwd Hmb Hcont.
  unfold schCreateTask. apply wp_bind.
  eapply wp_mono; [apply (schGetTaskNode_pop _ _ _ _ Hq)|].
  intros r s1 (-> & Hq1 & Hmap1 & [n1 Hn1]). cbv beta iota.
  rewrite bool_decide_eq_false_2 by (intros Hne; by apply Hne).
  rewrite bool_decide_eq_false_2 by done. cbn [orb].
  apply wp_bind, wp_updNode; [eauto|].
  rewrite Hwd. rewrite bool_decide_eq_false_2 by lia.
  apply wp_bind, wp_updNode; [simpl; apply is_Some_alter; eauto|].
  apply wp_bind. eapply wp_nodeAt.
  { simpl. rewrite !list_lookup_alter_eq, Hn1. reflexivity. }
  apply wp_bind, wp_get. cbn [task set_task name setupTask].
  apply Hcont.
  - by do 2 apply queues_set_task.
  - exact Hmap1.
  - simpl. do 2 apply is_Some_alter. eauto.
Qed.

(** C8. The invariant of the task-node pool is lost on the duplicate-name
    path of [schCreateTask]: starting from queues that are well formed and
    account for the whole pool, a description whose trimmed name is
    already registered makes the function return [SchEnoDuplicated], and
    the node [x] it took from the head of the free queue is afterwards in
    neither queue, so that [freeSize + busySize] is the pool size minus
    one. *)
Theorem schCreateTask_duplicate_leaks (s : scheduler) (x : nat) (fl bl : list nat)
    (d : schTaskDescription) (wd : schWatchDog) :
  queues s (x :: fl) bl ->
  poolAccounted s ->
  Wd d = Some wd ->
  0 <= MbSize d ->
  (0 < String.length (TrimSpace (Name d)))%nat ->
  is_Some (tkMap s !! TrimSpace (Name d)) ->
  exists s',
    schCreateTask (Some d) s = Returns ((SchEnoDuplicated, None), s')
    /\ queues s' fl bl
    /\ (x ∉ fl ++ bl)
    /\ freeSize s' + busySize s' = schTaskNodePoolSize - 1.
Proof.
  intros Hq Hacc Hwd Hmb Hlen Hdup.
  assert (Hx : x ∉ fl ++ bl).
  { destruct Hq as [_ _ _ _ Hnd]. by apply NoDup_cons in Hnd as [? _]. }
  assert (Hsz : freeSize s + busySize s = Z.of_nat (length (x :: fl)) + Z.of_nat (length bl)).
  { destruct Hq as [_ _ -> -> _]. done. }
  cut (wp (schCreateTask (Some d)) s (fun r s' =>
         r = (SchEnoDuplicated, None) /\ queues s' fl bl
         /\ freeSize s' + busySize s' = schTaskNodePoolSize - 1)).
  { intros Hwp. apply wp_Returns in Hwp as (r & s' & Hrun & -> & Hq' & Hsz').
    exists s'. done. }
  eapply schCreateTask_head; [exact Hq | exact Hwd | exact Hmb|].
  intros s3 Hq3 Hmap3 _.
  rewrite bool_decide_eq_false_2 by lia.
  rewrite Hmap3, bool_decide_eq_true_2 by done.
  apply wp_ret. split; [done|]. split; [done|].
  destruct Hq3 as [_ _ -> -> _]. unfold poolAccounted in Hacc.
  rewrite <- Hacc, Hsz. simpl length. lia.
Qed.

Lemma createTail_ok s x fl bl d :
  queues s fl bl ->
  x ∉ fl ++ bl ->
  is_Some (schTaskNodePool s !! x) ->
  wp (createTail d (Some x)) s (fun r s' =>
    r.2 = Some x
    /\ (r.1 = SchEnoNone \/ r.1 = SchEnoSuspended)
    /\ queues s' fl (x :: bl)
    /\ tkMap s' = tkMap s).
Proof.
  intros Hq Hx Hnode. unfold createTail. apply wp_bind.
  eapply wp_mono; [apply (schTaskBusyEnque_push _ _ _ _ Hq Hx Hnode)|].
  intros r s1 (-> & Hq1 & Hmap1 & _ & Hn1). cbv beta.
  rewrite bool_decide_eq_false_2 by (intros Hne; by apply Hne).
  destruct (bool_decide (Flag d = SchCreatedGo)).
  - apply wp_bind, wp_updNode; [done|]. apply wp_bind, wp_modify. apply wp_ret.
    split; [done|]. split; [by left|]. split; [|done].
    by apply queues_set_spawned, queues_set_task.
  - destruct (bool_decide (Flag d = SchCreatedSuspend)).
    + apply wp_bind, wp_updNode; [done|]. apply wp_ret.
      split; [done|]. split; [by left|]. split; [|done].
      by apply (queues_set_task s1).
    + apply wp_bind, wp_updNode; [done|]. apply wp_ret.
      split; [done|]. split; [by right|]. split; [|done].
      by apply (queues_set_task s1).
Qed.

Lemma schCreateTask_fresh_accounted s x fl bl d wd :
  queues s (x :: fl) bl ->
  poolAccounted s ->
  Wd d = Some wd ->
  0 <= MbSize d ->
  tkMap s !! TrimSpace (Name d) = None ->
  exists eno s',
    schCreateTask (Some d) s = Returns ((eno, Some x), s')
    /\ (eno = SchEnoNone \/ eno = SchEnoSuspended)
    /\ queues s' fl (x :: bl)
    /\ poolAccounted s'.
Proof.
  intros Hq Hacc Hwd Hmb Hfresh.
  assert (Hx : x ∉ fl ++ bl).
  { destruct Hq as [_ _ _ _ Hnd]. by apply NoDup_cons in Hnd as [? _]. }
  assert (Hsz : freeSize s + busySize s = Z.of_nat (length (x :: fl)) + Z.of_nat (length bl)).
  { destruct Hq as [_ _ -> -> _]. done. }
  cut (wp (schCreateTask (Some d)) s (fun r s' =>
         r.2 = Some x /\ (r.1 = SchEnoNone \/ r.1 = SchEnoSuspended)
         /\ queues s' fl (x :: bl))).
  { intros Hwp. apply wp_Returns in Hwp as ([eno ptn] & s' & Hrun & Hptn & Heno & Hq').
    simpl in Hptn, Heno. subst ptn. exists eno, s'. split; [done|]. split; [done|].
    split; [done|]. unfold poolAccounted in *.
    destruct Hq' as [_ _ -> -> _]. rewrite <- Hacc, Hsz. simpl length. lia. }
  eapply schCreateTask_head; [exact Hq | exact Hwd | exact Hmb|].
  intros s3 Hq3 Hmap3 Hn3.
  assert (Htail : wp (createTail d (Some x)) s3 (fun r s' =>
            r.2 = Some x /\ (r.1 = SchEnoNone \/ r.1 = SchEnoSuspended)
            /\ queues s' fl (x :: bl))).
  { eapply wp_mono; [apply (createTail_ok _ _ _ _ _ Hq3 Hx Hn3)|].
    intros r s' (? & ? & ? & _). done. }
  destruct (bool_decide _); [exact Htail|].
  rewrite Hmap3, bool_decide_eq_false_2 by (rewrite Hfresh; by intros [? ?]).
  apply wp_bind, wp_modify.
  eapply wp_mono; [apply (createTail_ok _ x fl bl d)|].
  - by apply queues_set_tkMap.
  - done.
  - done.
  - intros r s' (? & ? & ? & _). done.
Qed.

(** *** [schSchedulerInit] *)

Lemma land_mask k z :
  0 <= k -> Z.land z (2 ^ k - 1) = z mod 2 ^ k.
Proof.
  intros Hk. rewrite <- Z.land_ones by done.
  by rewrite Z.ones_equiv, Z.sub_1_r.
Qed.

Lemma init_lookup k (i : nat) :
  0 <= k -> schTaskNodePoolSize = 2 ^ k -> Z.of_nat i < schTaskNodePoolSize ->
  exists n, schTaskNodePool schSchedulerInit !! i = Some n
            /\ last n = Some (Z.to_nat ((Z.of_nat i - 1 + schTaskNodePoolSize)
                                          mod schTaskNodePoolSize))
            /\ next n = Some (Z.to_nat ((Z.of_nat i + 1) mod schTaskNodePoolSize)).
Proof.
  intros Hk HN Hi. exists (initNode (Z.of_nat i)). split.
  - simpl. rewrite list_lookup_fmap, lookup_seqZ_lt by lia. reflexivity.
  - unfold initNode. simpl. rewrite HN, !land_mask by done. done.
Qed.

Lemma init_chain k (len a prev after : nat) :
  0 <= k -> schTaskNodePoolSize = 2 ^ k ->
  Z.of_nat (a + len) <= schTaskNodePoolSize ->
  Z.of_nat prev = (Z.of_nat a - 1 + schTaskNodePoolSize) mod schTaskNodePoolSize ->
  Z.of_nat after = (Z.of_nat (a + len)) mod schTaskNodePoolSize ->
  dll (schTaskNodePool schSchedulerInit) prev (seq a len) after.
Proof.
  intros Hk HN. revert a prev.
  induction len as [|len IH]; intros a prev Hle Hprev Hafter; [done|].
  assert (HNpos : 0 < schTaskNodePoolSize) by lia.
  destruct (init_lookup k a Hk HN) as (n & Hn & Hlast & Hnext); [lia|].
  cbn [seq]. split.
  - exists n. split; [done|]. split.
    + rewrite Hlast, <- Hprev. by rewrite Nat2Z.id.
    + rewrite Hnext. f_equal. destruct len as [|len].
      * cbn [seq hd]. rewrite Nat.add_1_r in Hafter.
        rewrite Nat2Z.inj_succ, <- Z.add_1_r in Hafter.
        rewrite <- Hafter. by rewrite Nat2Z.id.
      * cbn [seq hd]. rewrite Z.mod_small by lia. lia.
  - apply IH.
    + lia.
    + replace (Z.of_nat (S a) - 1 + schTaskNodePoolSize)
        with (Z.of_nat a + 1 * schTaskNodePoolSize) by lia.
      rewrite Z_mod_plus_full, Z.mod_small by lia. done.
    + rewrite Hafter. f_equal. lia.
Qed.

Lemma last_seq a n d : List.last (seq a (S n)) d = (a + n)%nat.
Proof. by rewrite seq_S, last_last. Qed.

Lemma schSchedulerInit_queues k :
  0 <= k -> schTaskNodePoolSize = 2 ^ k ->
  queues schSchedulerInit (seq 0 (Z.to_nat schTaskNodePoolSize)) []
  /\ poolAccounted schSchedulerInit.
Proof.
  intros Hk HN.
  assert (HNpos : 0 < schTaskNodePoolSize) by lia.
  destruct (Z.to_nat schTaskNodePoolSize) as [|m] eqn:Hm; [lia|].
  split; [|unfold poolAccounted; simpl; lia].
  split; simpl.
  - split; [done|]. change (0%nat :: seq 1 m) with (seq 0 (S m)).
    rewrite last_seq. apply (init_chain k); [done|done|lia|..].
    + change (Z.of_nat 0) with 0. replace (0 - 1 + schTaskNodePoolSize)
        with (schTaskNodePoolSize - 1) by lia.
      rewrite Z.mod_small by lia. lia.
    + replace (Z.of_nat (0 + S m)) with schTaskNodePoolSize by lia.
      by rewrite Z.mod_same by lia.
  - done.
  - rewrite length_seq. lia.
  - done.
  - rewrite app_nil_r. change (0%nat :: seq 1 m) with (seq 0 (S m)). apply NoDup_seq.
Qed.

(** *** Tear down *)

Lemma last_cons_ne {A} (x : A) (l : list A) (d : A) :
  l ≠ [] -> List.last (x :: l) d = List.last l d.
Proof. by destruct l. Qed.

Lemma last_app_ne {A} (l1 l2 : list A) (d : A) :
  l2 ≠ [] -> List.last (l1 ++ l2) d = List.last l2 d.
Proof.
  intros Hne. induction l1 as [|y l1 IH]; [done|].
  change ((y :: l1) ++ l2) with (y :: (l1 ++ l2)).
  rewrite last_cons_ne; [done|]. by destruct l1, l2.
Qed.

Lemma dll_app pool prev l1 l2 after :
  dll pool prev (l1 ++ l2) after <->
  dll pool prev l1 (hd after l2) /\ dll pool (List.last l1 prev) l2 after.
Proof.
  revert prev. induction l1 as [|y l1 IH]; intros prev.
  - change (List.last [] prev) with prev. simpl app. split; [by split | by intros [_ ?]].
  - change ((y :: l1) ++ l2) with (y :: (l1 ++ l2)).
    assert (Hhd : hd after (l1 ++ l2) = hd (hd after l2) l1) by (by destruct l1).
    assert (Hlast : List.last (y :: l1) prev = List.last l1 y).
    { destruct l1 as [|z l1]; [done|]. rewrite last_cons_ne by done.
      by apply last_default. }
    rewrite Hlast. split.
    + intros [(n & Hn & Hl & Hnx) Hrest]. apply IH in Hrest as [H1 H2].
      split; [|done]. split; [|done]. exists n. by rewrite <- Hhd.
    + intros [[(n & Hn & Hl & Hnx) H1] H2]. split.
      * exists n. by rewrite Hhd.
      * apply IH. by split.
Qed.

(** A ring may be read from any of its nodes. *)
Lemma ring_rotate pool l1 x l2 d d' :
  dll pool (List.last (l1 ++ x :: l2) d) (l1 ++ x :: l2) (hd d' (l1 ++ x :: l2)) ->
  dll pool (List.last (x :: l2 ++ l1) d) (x :: l2 ++ l1) x.
Proof.
  destruct l1 as [|h l1].
  - rewrite app_nil_r. simpl app. simpl hd. done.
  - intros Hdll. apply dll_app in Hdll as [H1 H2].
    change (hd d' ((h :: l1) ++ x :: l2)) with h in *.
    change (hd h (x :: l2)) with x in H1.
    change (x :: l2 ++ h :: l1) with ((x :: l2) ++ h :: l1).
    apply dll_app. change (hd x (h :: l1)) with h.
    assert (Hl1 : List.last ((h :: l1) ++ x :: l2) d = List.last (x :: l2) d).
    { by rewrite last_app_ne. }
    assert (Hl2 : List.last ((x :: l2) ++ h :: l1) d = List.last (h :: l1) d).
    { by rewrite last_app_ne. }
    rewrite Hl2. rewrite Hl1 in H1.
    rewrite (last_default (h :: l1) _ d) in H2 by done.
    rewrite (last_default (x :: l2) _ d) by done.
    split; [exact H2 | exact H1].
Qed.

(** [s'] has the tasks of [s] in the same nodes. *)
Lemma sameTasks_alter_links (pool : list schTaskNode) f (i : nat) :
  (forall n, task (f n) = task n) ->
  forall j : nat, task <$> alter f i pool !! j = task <$> pool !! j.
Proof.
  intros Hf j. destruct (decide (i = j)) as [->|Hne].
  - rewrite list_lookup_alter_eq. destruct (pool !! j); [|done]. simpl. by rewrite Hf.
  - by rewrite list_lookup_alter_ne.
Qed.

Lemma schTaskBusyDeque_remove s x fl l1 l2 :
  queues s fl (l1 ++ x :: l2) ->
  wp (schTaskBusyDeque (Some x)) s (fun r s' =>
    r = SchEnoNone
    /\ queues s' fl (l1 ++ l2)
    /\ tkMap s' = tkMap s
    /\ tmMap s' = tmMap s
    /\ (forall j, task <$> schTaskNodePool s' !! j = task <$> schTaskNodePool s !! j)).
Proof.
  intros [Hfree Hbusy HfreeSz HbusySz Hnd].
  assert (Hndb : NoDup (l1 ++ x :: l2)) by (by apply NoDup_app in Hnd as (_ & _ & ?)).
  assert (Hnd' : NoDup (fl ++ l1 ++ l2)).
  { apply NoDup_app in Hnd as (Hndf & Hdisj & _).
    apply NoDup_app. split; [done|]. split.
    - intros z Hz Hin. apply (Hdisj z Hz).
      rewrite elem_of_app, elem_of_cons. rewrite elem_of_app in Hin. tauto.
    - apply NoDup_app in Hndb as (Hn1 & Hd1 & Hn2). apply NoDup_cons in Hn2 as [Hx2 Hn2].
      apply NoDup_app. split; [done|]. split; [|done].
      intros z Hz Hin. apply (Hd1 z Hz). by apply list_elem_of_further. }
  assert (Hoff : forall z, z ∈ fl -> z ∉ l1 ++ x :: l2).
  { apply NoDup_app in Hnd as (_ & Hdisj & _). exact Hdisj. }
  assert (Hlen : length (l1 ++ x :: l2) = S (length (l1 ++ l2))).
  { rewrite !length_app. simpl. lia. }
  unfold schTaskBusyDeque. apply wp_bind, wp_get.
  rewrite bool_decide_eq_false_2 by (rewrite HbusySz; lia).
  destruct (decide (l1 ++ l2 = [])) as [Hone|Hmore].
  - (* the only busy node *)
    apply app_eq_nil in Hone as [-> ->]. simpl in Hbusy. destruct Hbusy as [Hhead _].
    rewrite bool_decide_eq_true_2 by (rewrite HbusySz; done).
    rewrite bool_decide_eq_false_2 by (intros Hne; by apply Hne).
    apply wp_bind, wp_modify. apply wp_bind, wp_modify. apply wp_ret.
    split; [done|]. split; [|done]. by split.
  - rewrite bool_decide_eq_false_2.
    2:{ rewrite HbusySz, Hlen. destruct (l1 ++ l2); [done|]. simpl length. lia. }
    remember (l2 ++ l1) as r eqn:Hrdef.
    assert (Hr : r ≠ []).
    { intros ->. symmetry in Hrdef. apply app_eq_nil in Hrdef as [-> ->]. done. }
    assert (Hndr : NoDup (x :: r)).
    { rewrite Hrdef. apply NoDup_app in Hndb as (Hn1 & Hd1 & Hn2).
      apply NoDup_cons in Hn2 as [Hx2 Hn2]. apply NoDup_cons. split.
      - rewrite elem_of_app. intros [?|Hin]; [done|].
        apply (Hd1 x Hin), list_elem_of_here.
      - apply NoDup_app. split; [done|]. split; [|done].
        intros z Hz Hin. apply (Hd1 z Hin). by apply list_elem_of_further. }
    assert (Hrot : dll (schTaskNodePool s) (List.last (x :: r) x) (x :: r) x).
    { rewrite Hrdef.
      destruct (l1 ++ x :: l2) as [|b0 bl] eqn:Hbl; [by destruct l1|].
      destruct Hbusy as [_ Hdll]. rewrite <- Hbl in Hdll.
      rewrite (last_default _ b0 x) in Hdll by (by destruct l1).
      apply (ring_rotate _ l1 x l2 x b0).
      replace (hd b0 (l1 ++ x :: l2)) with b0 by (by rewrite Hbl). exact Hdll. }
    destruct Hrot as [(n & Hn & Hlast & Hnext) Hrest].
    rewrite last_cons_ne in Hlast by done.
    destruct r as [|y r']; [done|]. cbn [hd] in Hnext.
    set (t := List.last (y :: r') x) in *.
    apply NoDup_cons in Hndr as [Hxr Hndr].
    assert (Hyx : y ≠ x) by (intros ->; apply Hxr, list_elem_of_here).
    assert (Htin : t ∈ y :: r') by (by apply last_in).
    destruct (dll_lookup _ _ _ _ _ Hrest Htin) as [nt Hnt].
    destruct (dll_lookup _ _ _ _ y Hrest (list_elem_of_here _ _)) as [ny Hny].
    apply wp_bind. eapply wp_nodeAt; [exact Hn|].
    rewrite Hnext, (bool_decide_eq_false_2 (Some y = Some x)) by (intros [=]; done).
    rewrite andb_false_r, Hlast.
    apply wp_bind, wp_updNode; [eauto|].
    apply wp_bind, wp_updNode; [simpl; apply is_Some_alter; eauto|].
    set (pool' := alter (set_last (Some t)) y
                    (alter (set_next (Some y)) t (schTaskNodePool s))).
    assert (Hcyc : dll pool' t (y :: r') y).
    { subst pool'. eapply dll_set_prev; [by apply NoDup_cons in Hndr as [? _]|].
      apply (dll_set_after _ x (y :: r') x y x Hndr); [done | exact Hrest]. }
    assert (Hfr : forall z, z ∈ fl -> pool' !! z = schTaskNodePool s !! z).
    { intros z Hz. specialize (Hoff z Hz).
      assert (Hzr : z ∉ y :: r').
      { rewrite Hrdef. intros Hin. apply Hoff.
        rewrite elem_of_app, elem_of_cons. rewrite elem_of_app in Hin. tauto. }
      subst pool'. rewrite !list_lookup_alter_ne; [done|..].
      - intros Heq. apply Hzr. rewrite <- Heq. exact Htin.
      - intros <-. apply Hzr, list_elem_of_here. }
    assert (Htasks : forall j, task <$> pool' !! j = task <$> schTaskNodePool s !! j).
    { intros j. subst pool'. by rewrite !sameTasks_alter_links. }
    assert (Hsz : busySize s - 1 = Z.of_nat (length (l1 ++ l2))).
    { rewrite HbusySz, Hlen. lia. }
    assert (Hpos : ~ busySize s - 1 <= 0).
    { rewrite Hsz. destruct (l1 ++ l2); [done|]. simpl length. lia. }
    destruct l1 as [|h l1].
    + (* [x] is the head of the busy queue *)
      simpl in Hbusy. destruct Hbusy as [Hhead _].
      rewrite bool_decide_eq_true_2 by done.
      apply wp_bind, wp_modify. apply wp_bind, wp_modify. apply wp_bind, wp_get.
      simpl. rewrite bool_decide_eq_false_2 by done. apply wp_ret.
      split; [done|]. split; [|done].
      rewrite app_nil_r in Hrdef. subst l2.
      split; simpl; try done.
      * by eapply ring_tail_busy.
      * split; [done|]. fold pool'.
        rewrite (last_default (y :: r') y x) by done. exact Hcyc.
    + (* the head of the busy queue stays *)
      destruct Hbusy as [Hhead _].
      assert (Hhx : h ≠ x).
      { intros ->. apply NoDup_cons in Hndb as [Hin _]. apply Hin.
        rewrite elem_of_app. right. apply list_elem_of_here. }
      rewrite bool_decide_eq_false_2 by (rewrite Hhead; intros [=]; done).
      apply wp_bind, wp_ret. apply wp_bind, wp_modify. apply wp_bind, wp_get.
      simpl. rewrite bool_decide_eq_false_2 by done. apply wp_ret.
      split; [done|]. split; [|done].
      split; simpl; try done.
      * by eapply ring_tail_busy.
      * split; [done|]. fold pool'.
        change (h :: l1 ++ l2) with ((h :: l1) ++ l2).
        destruct l2 as [|y2 l2].
        -- rewrite app_nil_r. simpl in Hrdef. injection Hrdef as -> ->.
           rewrite (last_default (h :: l1) h x) by done. exact Hcyc.
        -- injection Hrdef as -> ->.
           rewrite (last_default _ h x) by done.
           apply (ring_rotate pool' (y2 :: l2) h l1 x y2). exact Hcyc.
Qed.

Lemma schRetTaskNode_push s x fl bl :
  queues s fl bl ->
  x ∉ fl ++ bl ->
  is_Some (schTaskNodePool s !! x) ->
  wp (schRetTaskNode (Some x)) s (fun r s' =>
    r = SchEnoNone
    /\ queues s' (x :: fl) bl
    /\ tkMap s' = tkMap s
    /\ (forall j, task <$> schTaskNodePool s' !! j = task <$> schTaskNodePool s !! j)).
Proof.
  intros [Hfree Hbusy HfreeSz HbusySz Hnd] Hxout [nx Hnx].
  apply not_elem_of_app in Hxout as [Hxfl Hxbl].
  assert (Hnd' : NoDup ((x :: fl) ++ bl)).
  { change ((x :: fl) ++ bl) with (x :: (fl ++ bl)). apply NoDup_cons.
    split; [|done]. rewrite elem_of_app. tauto. }
  assert (Hoff : forall z, z ∈ bl -> z ≠ x /\ z ∉ fl).
  { intros z Hz. split; [by intros ->|].
    apply NoDup_app in Hnd as (_ & Hdisj & _). intros Hin. by apply (Hdisj z). }
  unfold schRetTaskNode. apply wp_bind, wp_get. apply wp_bind.
  destruct fl as [|b fl].
  - simpl in Hfree. rewrite Hfree.
    apply wp_bind, wp_updNode; [eauto|].
    apply wp_updNode; [simpl; apply is_Some_alter; eauto|].
    apply wp_bind, wp_modify. apply wp_bind, wp_modify. apply wp_ret.
    split; [done|]. split; [|split; [done|]].
    + split; simpl.
      * split; [done|]. change (List.last [x] x) with x. split; [|done].
        exists (set_next (Some x) (set_last (Some x) nx)).
        rewrite !list_lookup_alter_eq, Hnx. done.
      * eapply ring_tail_busy; [|exact Hbusy].
        intros z Hz. destruct (Hoff z Hz) as [Hzx _].
        by rewrite !list_lookup_alter_ne.
      * rewrite HfreeSz. simpl length. lia.
      * done.
      * done.
    + intros j. simpl. by rewrite !sameTasks_alter_links.
  - destruct Hfree as [Hhead Hdll]. rewrite Hhead.
    assert (Hbx : b ≠ x) by (intros ->; apply Hxfl, list_elem_of_here).
    set (t := List.last (b :: fl) b) in *.
    assert (Htin : t ∈ b :: fl) by (by apply last_in).
    assert (Htx : t ≠ x) by (intros Heq; apply Hxfl; by rewrite <- Heq).
    assert (Hndf : NoDup (b :: fl)) by (by apply NoDup_app in Hnd as (? & _ & _)).
    pose proof Hdll as [(nb & Hnb & Hblast & _) _].
    destruct (dll_lookup _ _ _ _ _ Hdll Htin) as [nt Hnt].
    apply wp_bind. eapply wp_nodeAt; [exact Hnb|]. rewrite Hblast.
    apply wp_bind, wp_updNode; [eauto|].
    apply wp_bind, wp_updNode; [simpl; apply is_Some_alter; eauto|].
    apply wp_bind, wp_updNode; [simpl; do 2 apply is_Some_alter; eauto|].
    apply wp_updNode; [simpl; do 3 apply is_Some_alter; eauto|].
    apply wp_bind, wp_modify. apply wp_bind, wp_modify. apply wp_ret.
    split; [done|]. split; [|split; [done|]].
    + split; simpl.
      * split; [done|].
        change (List.last (x :: b :: fl) x) with (List.last (b :: fl) x).
        rewrite (last_default (b :: fl) x b) by done. fold t.
        split.
        -- exists (set_next (Some b) (set_last (Some t) nx)).
           rewrite list_lookup_alter_ne by done.
           rewrite list_lookup_alter_eq.
           rewrite list_lookup_alter_ne by done.
           rewrite list_lookup_alter_eq, Hnx. done.
        -- eapply dll_set_prev; [by apply NoDup_cons in Hndf as [? _]|].
           apply dll_alter_outside; [done|].
           apply (dll_set_after _ t (b :: fl) b x b Hndf); [done|].
           apply dll_alter_outside; [done|]. exact Hdll.
      * eapply ring_tail_busy; [|exact Hbusy].
        intros z Hz. destruct (Hoff z Hz) as [Hzx Hzf].
        assert (Hzb' : z ≠ b) by (intros ->; apply Hzf, list_elem_of_here).
        assert (Hzt : z ≠ t) by (intros Heq; apply Hzf; rewrite Heq; exact Htin).
        by rewrite !list_lookup_alter_ne.
      * rewrite HfreeSz. simpl length. lia.
      * done.
      * done.
    + intros j. simpl. by rewrite !sameTasks_alter_links.
Qed.

Lemma killTimersLoop_no_timers s x n order acks :
  schTaskNodePool s !! x = Some n ->
  tmIdxTab (task n) = ∅ ->
  killTimersLoop (Some x) order acks s = Returns (SchEnoNone, s).
Proof.
  intros Hn Hempty. induction order as [|tm order IH]; [done|].
  simpl. unfold_monad. unfold nodeAt. rewrite Hn, Hempty, lookup_empty. exact IH.
Qed.

Lemma queues_set_tmMap s f fl bl :
  queues s fl bl -> queues (set_tmMap f s) fl bl.
Proof. intros [? ? ? ? ?]. by split. Qed.

(** A task without timers is torn down: its node goes from the busy queue
    to the head of the free queue, the accounting is as before, and the
    map of task names is as before too, since the name has been wiped by
    [schTcbClean] when the function tests it. *)
Lemma schStopTaskEx_accounted s x fl l1 l2 n order acks :
  queues s fl (l1 ++ x :: l2) ->
  schTaskNodePool s !! x = Some n ->
  tmIdxTab (task n) = ∅ ->
  is_Some (que (task n)) -> is_Some (done (task n)) -> is_Some (stopped (task n)) ->
  wp (schStopTaskEx (Some x) order acks) s (fun r s' =>
    r = SchEnoNone
    /\ queues s' (x :: fl) (l1 ++ l2)
    /\ tkMap s' = tkMap s
    /\ freeSize s' + busySize s' = freeSize s + busySize s).
Proof.
  intros Hq Hn Htm [q Hque] [dn Hdone] [st Hstopped].
  assert (Hx : x ∉ fl ++ l1 ++ l2).
  { destruct Hq as [_ _ _ _ Hnd]. apply NoDup_app in Hnd as (_ & Hdisj & Hndb).
    apply NoDup_app in Hndb as (_ & Hd1 & Hn2). apply NoDup_cons in Hn2 as [Hx2 _].
    rewrite !elem_of_app. intros [Hin|[Hin|Hin]].
    - apply (Hdisj x Hin). rewrite elem_of_app. right. apply list_elem_of_here.
    - apply (Hd1 x Hin), list_elem_of_here.
    - done. }
  assert (Hsz : freeSize s + busySize s
                = Z.of_nat (length (x :: fl)) + Z.of_nat (length (l1 ++ l2))).
  { destruct Hq as [_ _ -> -> _]. rewrite !length_app. simpl length. lia. }
  unfold schStopTaskEx. apply wp_bind.
  eapply wp_mono; [apply (schTaskBusyDeque_remove _ _ _ _ _ Hq)|].
  intros r s1 (-> & Hq1 & Hmap1 & _ & Htasks1). cbv beta.
  rewrite bool_decide_eq_false_2 by (intros Hne; by apply Hne).
  assert (Hn1 : exists n1, schTaskNodePool s1 !! x = Some n1 /\ task n1 = task n).
  { specialize (Htasks1 x). rewrite Hn in Htasks1.
    destruct (schTaskNodePool s1 !! x) as [n1|]; [|done].
    exists n1. split; [done|]. by injection Htasks1. }
  destruct Hn1 as (n1 & Hn1 & Htask1).
  apply wp_bind. unfold schKillTaskTimers.
  eapply wp_eq; [apply (killTimersLoop_no_timers s1 x n1); [done | by rewrite Htask1]|].
  rewrite bool_decide_eq_false_2 by (intros Hne; by apply Hne).
  apply wp_bind. unfold schTcbClean. apply wp_bind.
  eapply wp_nodeAt; [exact Hn1|].
  rewrite Htask1, Hque, Hdone, Hstopped.
  apply wp_bind, wp_modify. apply wp_bind, wp_updNode; [simpl; eauto|].
  apply wp_ret.
  rewrite bool_decide_eq_false_2 by (intros Hne; by apply Hne).
  apply wp_bind.
  eapply wp_mono.
  { apply (schRetTaskNode_push _ x fl (l1 ++ l2)).
    - by apply queues_set_task, queues_set_tmMap.
    - done.
    - simpl. apply is_Some_alter. eauto. }
  intros r s3 (-> & Hq3 & Hmap3 & Htasks3). cbv beta.
  rewrite bool_decide_eq_false_2 by (intros Hne; by apply Hne).
  specialize (Htasks3 x). simpl in Htasks3.
  rewrite list_lookup_alter_eq, Hn1 in Htasks3. simpl in Htasks3.
  destruct (schTaskNodePool s3 !! x) as [n3|] eqn:Hn3; [|done].
  injection Htasks3 as Htask3.
  apply wp_bind. eapply wp_nodeAt; [exact Hn3|].
  rewrite Htask3. cbn [name cleanTask].
  rewrite bool_decide_eq_false_2 by (simpl; lia).
  apply wp_bind, wp_ret. apply wp_ret.
  split; [done|]. split; [done|]. split; [by rewrite Hmap3|].
  destruct Hq3 as [_ _ -> -> _]. by rewrite Hsz.
Qed.

(** *** [schKillTimer] *)

Lemma schKillTimer_rejects s ptn tid ack :
  ptn = None \/ tid < 0 \/ schMaxTaskTimer < tid ->
  schKillTimer ptn tid ack s = Returns (SchEnoParameter, s).
Proof.
  intros Hbad. unfold schKillTimer.
  destruct Hbad as [Hnil|[Hlt|Hgt]].
  - by rewrite (bool_decide_eq_true_2 _ Hnil).
  - by rewrite (bool_decide_eq_true_2 _ Hlt), orb_true_r.
  - rewrite (bool_decide_eq_true_2 (tid > schMaxTaskTimer)) by lia.
    by rewrite orb_true_r.
Qed.

Lemma schKillTimer_accepts s ptn n tid ack :
  schTaskNodePool s !! ptn = Some n ->
  0 <= tid <= schMaxTaskTimer ->
  schKillTimer (Some ptn) tid ack s =
    match tmTab (task n) !! Z.to_nat tid with
    | None => Panics
    | Some None => Returns (SchEnoNone, s)
    | Some (Some tm) =>
        (sendStop tm;;
         ok ← recvStopped ack;
         if ok : bool then mret SchEnoNone else mret SchEnoInternal) s
    end.
Proof.
  intros Hn Htid. unfold schKillTimer.
  rewrite bool_decide_eq_false_2 by done.
  rewrite bool_decide_eq_false_2 by lia.
  rewrite bool_decide_eq_false_2 by lia.
  cbn [orb]. unfold tmTabAt. unfold_monad. unfold nodeAt. rewrite Hn.
  rewrite bool_decide_eq_false_2 by lia.
  by destruct (tmTab (task n) !! Z.to_nat tid) as [[tm|]|].
Qed.

(** C10. [schKillTimer] accepts [tid = schMaxTaskTimer]: with a timer
    table of [schMaxTaskTimer] slots (indices below [schMaxTaskTimer] are
    the ones in range) the call does not return [SchEnoParameter] but
    indexes the table out of range and panics. *)
Theorem schKillTimer_tid_max_out_of_range (s : scheduler) (ptn : nat) (n : schTaskNode)
    (ack : option bool) :
  schTaskNodePool s !! ptn = Some n ->
  0 <= schMaxTaskTimer ->
  length (tmTab (task n)) = Z.to_nat schMaxTaskTimer ->
  schKillTimer (Some ptn) schMaxTaskTimer ack s = Panics
  /\ schKillTimer (Some ptn) schMaxTaskTimer ack s ≠ Returns (SchEnoParameter, s)
  /\ (forall tid, 0 <= tid < schMaxTaskTimer ->
        is_Some (tmTab (task n) !! Z.to_nat tid)).
Proof.
  intros Hn Hmax Hlen.
  assert (Hrun : schKillTimer (Some ptn) schMaxTaskTimer ack s = Panics).
  { rewrite (schKillTimer_accepts _ _ _ _ _ Hn) by lia.
    by rewrite lookup_ge_None_2 by lia. }
  split; [exact Hrun|]. split; [by rewrite Hrun|].
  intros tid Htid. apply lookup_lt_is_Some. lia.
Qed.

End Facts.

(** ** The theorems at concrete inputs *)

Import Fixtures.

#[local] Existing Instance consts.

(** [taskA] is created twice on a fresh scheduler with four task nodes:
    the second call fails, and node 1 is left in neither queue. *)
Lemma schCreateTask_duplicate_leaks_witness :
  exists s',
    schCreateTask (Some taskA) sched1 = Returns ((SchEnoDuplicated, None), s')
    /\ queues s' [2; 3]%nat [0%nat]
    /\ freeSize s' + busySize s' = 3.
Proof.
  destruct (schSchedulerInit_queues 2) as [Hq0 Hacc0]; [lia | reflexivity|].
  destruct (schCreateTask_fresh_accounted sched0 0 [1; 2; 3]%nat [] taskA
              (MkDog false false 1 0 2) Hq0 Hacc0 eq_refl)
    as (eno & s1 & Hrun & _ & Hq1 & Hacc1); [simpl; lia | reflexivity|].
  assert (Hs1 : sched1 = s1) by (unfold sched1; by rewrite Hrun).
  rewrite <- Hs1 in Hq1, Hacc1.
  destruct (schCreateTask_duplicate_leaks sched1 1 [2; 3]%nat [0%nat] taskA
              (MkDog false false 1 0 2) Hq1 Hacc1 eq_refl)
    as (s' & Hrun' & Hq' & _ & Hsz); [simpl; lia | vm_compute; lia | |].
  - exists 0%nat. vm_compute. reflexivity.
  - exists s'. split; [exact Hrun'|]. split; [exact Hq' | exact Hsz].
Defined.

(** The same run, evaluated. *)
Example schCreateTask_twice :
  wp (schCreateTask (Some taskA)) sched0 (fun r s1 =>
    r = (SchEnoNone, Some 0%nat)
    /\ (freeSize s1, busySize s1, tkFree s1, tkBusy s1) = (3, 1, Some 1%nat, Some 0%nat)
    /\ wp (schCreateTask (Some taskA)) s1 (fun r' s2 =>
         r' = (SchEnoDuplicated, None)
         /\ (freeSize s2, busySize s2, tkFree s2, tkBusy s2)
            = (2, 1, Some 2%nat, Some 0%nat))).
Proof. vm_compute. repeat split. Qed.

(** Create, tear down, create again: the name is still registered after
    the tear down, the third call fails and loses node 1. *)
Example schCreateTask_after_stop :
  wp (schStopTaskEx (Some 0%nat) [] (fun _ => None)) sched1 (fun r s2 =>
    r = SchEnoNone
    /\ (freeSize s2, busySize s2) = (4, 0)
    /\ tkMap s2 !! "a"%string = Some 0%nat
    /\ wp (schCreateTask (Some taskA)) s2 (fun r' s3 =>
         r' = (SchEnoDuplicated, None)
         /\ (freeSize s3, busySize s3) = (3, 0))).
Proof. vm_compute. repeat split. Qed.

(** Timer id 2 with two timer slots per task. *)
Lemma schKillTimer_tid_max_out_of_range_witness :
  schKillTimer (Some 0%nat) 2 (Some true) sched0 = Panics.
Proof.
  destruct (schKillTimer_tid_max_out_of_range sched0 0 (initNode 0) (Some true))
    as [Hrun _]; [reflexivity | simpl; lia | reflexivity | exact Hrun].
Defined.

End SchedProofs.
